(** * IRC log pipeline: parser ([parse_mirc_logs.py]) and chunker
      ([chunk_sessions.py])

    A shallow embedding of the two scripts under [scripts/irc-parser] and
    the properties of sessions, messages and chunks that follow from the
    code.

    Conventions of the embedding.
    - A Python [str] is the list of its code points ([list N]); [len] is
      [length].
    - Python integers that count things ([len], [chunk_index], counters)
      are [nat]; integers used in date and time arithmetic are [Z].
    - A call that may raise an exception the caller catches returns
      [option], [None] standing for the caught exception; a call that may
      raise an exception no caller catches returns [raises].
    - Library behaviour that depends on the interpreter's Unicode tables is
      written out on the ASCII range and read from the [Runtime] class
      outside it. *)

From Stdlib Require Import ZArith NArith Lia Ascii String DecimalString.
From Stdlib Require DecimalNat.
From stdpp Require Import base decidable option numbers list gmap sorting.

Abbreviation str := (list N).

(** ** Python strings *)

Definition chr (a : ascii) : N := N_of_ascii a.

(** The code points of an ASCII literal. *)
Definition lit (s : string) : str := map chr (list_ascii_of_string s).

(** [str.isspace] on one code point (CPython's [Py_UNICODE_ISSPACE]). *)
Definition isspace (c : N) : bool :=
  ((9 <=? c) && (c <=? 13) || (28 <=? c) && (c <=? 32)
   || (c =? 133) || (c =? 160) || (c =? 5760)
   || (8192 <=? c) && (c <=? 8202)
   || (c =? 8232) || (c =? 8233) || (c =? 8239) || (c =? 8287)
   || (c =? 12288))%N.

Fixpoint drop_while (p : N -> bool) (s : str) : str :=
  match s with
  | c :: s' => if p c then drop_while p s' else s
  | [] => []
  end.

Definition drop_while_end (p : N -> bool) (s : str) : str :=
  reverse (drop_while p (reverse s)).

Definition lstrip (s : str) : str := drop_while isspace s.

Definition rstrip (s : str) : str := drop_while_end isspace s.

(** [s.rstrip(chars)] *)
Definition rstrip_chars (chars : list N) (s : str) : str :=
  drop_while_end (fun c => bool_decide (c ∈ chars)) s.

(** [s.strip()] *)
Definition strip (s : str) : str := rstrip (lstrip s).

(** [sep.join(parts)] *)
Fixpoint join (sep : str) (parts : list str) : str :=
  match parts with
  | [] => []
  | [p] => p
  | p :: ps => p ++ sep ++ join sep ps
  end.

(** [s.split(sep)] for a one-character separator: always at least one
    part. *)
Fixpoint split_on (sep : N) (s : str) : list str :=
  match s with
  | [] => [[]]
  | c :: s' =>
      if (c =? sep)%N then [] :: split_on sep s'
      else match split_on sep s' with
           | p :: ps => (c :: p) :: ps
           | [] => [[c]]
           end
  end.

(** Decimal rendering of a natural number, [f"{n}"]. *)
Definition str_of_nat (n : nat) : str :=
  lit (NilZero.string_of_uint (Nat.to_uint n)).

(** Zero-padded decimal rendering, [f"{n:0{w}d}"]. *)
Definition zero_pad (w n : nat) : str :=
  let d := str_of_nat n in
  replicate (w - length d) (chr "0") ++ d.

(** Code point order on strings, the order [sorted] uses on [str]. *)
Fixpoint str_leb (a b : str) : bool :=
  match a, b with
  | [], _ => true
  | _ :: _, [] => false
  | x :: a', y :: b' =>
      if (x <? y)%N then true
      else if (x =? y)%N then str_leb a' b' else false
  end.

Definition str_le (a b : str) : Prop := str_leb a b = true.

Global Instance str_le_dec a b : Decision (str_le a b).
Proof. unfold str_le. apply _. Defined.

(** [sorted(set(xs))] *)
Definition sorted_set (xs : list str) : list str :=
  merge_sort str_le (elements (list_to_set xs : gset str)).

(** ** The message record shared by both scripts *)

Module Msg.
Record Message := {
  time : str;
  nick : str;
  text : str;
  is_self : bool
}.
End Msg.
Abbreviation Message := Msg.Message.

(** ** Exceptions

    The exceptions that leave a function of the scripts because no handler
    catches them, and a computation that returns or raises one of them. *)

Inductive exception := OverflowError | ZeroDivisionError.

Inductive raises (A : Type) : Type :=
| Return (a : A)
| Raise (e : exception).
Arguments Return {A} a.
Arguments Raise {A} e.

Global Instance raises_ret : MRet raises := λ A a, Return a.

Global Instance raises_bind : MBind raises := λ A B f x,
  match x with
  | Return a => f a
  | Raise e => Raise e
  end.

(** ** [datetime]

    A [datetime] with the fields Python compares and subtracts.  The
    calendar is the proleptic Gregorian one of the [datetime] module, with
    the module's years 1 to 9999. *)

Record datetime := {
  dt_year : Z; dt_month : Z; dt_day : Z;
  dt_hour : Z; dt_minute : Z; dt_second : Z; dt_microsecond : Z
}.

Module Calendar.
Local Open Scope Z_scope.

Definition is_leap (y : Z) : bool :=
  (y mod 4 =? 0) && (negb (y mod 100 =? 0) || (y mod 400 =? 0)).

Definition days_before_year (year : Z) : Z :=
  let y := year - 1 in y * 365 + y / 4 - y / 100 + y / 400.

Definition days_in_month (year month : Z) : Z :=
  if (month =? 2) && is_leap year then 29
  else nth (Z.to_nat month) [0; 31; 28; 31; 30; 31; 30; 31; 31; 30; 31; 30; 31] 0.

Definition days_before_month (year month : Z) : Z :=
  nth (Z.to_nat month) [0; 0; 31; 59; 90; 120; 151; 181; 212; 243; 273; 304; 334] 0
  + (if (2 <? month) && is_leap year then 1 else 0).

(** [date.toordinal()] *)
Definition toordinal (d : datetime) : Z :=
  days_before_year (dt_year d) + days_before_month (dt_year d) (dt_month d)
  + dt_day d.

Definition MAXYEAR : Z := 9999.

(** The values a [datetime] object can have. *)
Definition valid (d : datetime) : Prop :=
  1 <= dt_year d <= MAXYEAR /\ 1 <= dt_month d <= 12
  /\ 1 <= dt_day d <= days_in_month (dt_year d) (dt_month d)
  /\ 0 <= dt_hour d < 24 /\ 0 <= dt_minute d < 60
  /\ 0 <= dt_second d < 60 /\ 0 <= dt_microsecond d < 1000000.

(** A [timedelta], in microseconds. *)
Definition timedelta (days minutes : Z) : Z :=
  (days * 1440 + minutes) * 60000000.

Definition micros_of_day (d : datetime) : Z :=
  ((dt_hour d * 60 + dt_minute d) * 60 + dt_second d) * 1000000
  + dt_microsecond d.

(** [a - b] *)
Definition sub (a b : datetime) : Z :=
  (toordinal a - toordinal b) * 86400000000
  + (micros_of_day a - micros_of_day b).

(** [a < b]: field by field, most significant first. *)
Definition lt (a b : datetime) : bool :=
  let key d := [dt_year d; dt_month d; dt_day d; dt_hour d; dt_minute d;
                dt_second d; dt_microsecond d] in
  (fix go (x y : list Z) : bool :=
     match x, y with
     | u :: x', v :: y' => if u <? v then true else if u =? v then go x' y' else false
     | _, _ => false
     end) (key a) (key b).

(** The same time of day on the next calendar day. *)
Definition next_day (d : datetime) : datetime :=
  let '(y, m, dd) :=
    if dt_day d <? days_in_month (dt_year d) (dt_month d)
    then (dt_year d, dt_month d, dt_day d + 1)
    else if dt_month d <? 12 then (dt_year d, dt_month d + 1, 1)
    else (dt_year d + 1, 1, 1) in
  {| dt_year := y; dt_month := m; dt_day := dd;
     dt_hour := dt_hour d; dt_minute := dt_minute d;
     dt_second := dt_second d; dt_microsecond := dt_microsecond d |}.

(** [d + timedelta(days=1)]: [OverflowError] ("date value out of range")
    after the last day of year 9999. *)
Definition add_one_day (d : datetime) : raises datetime :=
  if MAXYEAR <? dt_year (next_day d) then Raise OverflowError
  else Return (next_day d).

(** The range of a C [int], the type [replace] converts its arguments
    to. *)
Definition INT_MIN : Z := -2147483648.
Definition INT_MAX : Z := 2147483647.

Definition fits_int (z : Z) : bool := (INT_MIN <=? z) && (z <=? INT_MAX).

(** [d.replace(hour=h, minute=m)].  Both arguments are converted to C
    [int]s first, which raises [OverflowError] for a number out of that
    type's range; then the fields are checked, and [Return None] is the
    [ValueError] raised for a field out of its range. *)
Definition replace_hm (d : datetime) (h m : Z) : raises (option datetime) :=
  if negb (fits_int h && fits_int m) then Raise OverflowError
  else if (0 <=? h) && (h <=? 23) && (0 <=? m) && (m <=? 59)
  then Return
         (Some {| dt_year := dt_year d; dt_month := dt_month d;
                  dt_day := dt_day d; dt_hour := h; dt_minute := m;
                  dt_second := dt_second d;
                  dt_microsecond := dt_microsecond d |})
  else Return None.
End Calendar.


(** ** The interpreter and its libraries

    What the scripts take from the Python runtime and whose tables or
    source are not part of the repository.  [None] stands for the
    [ValueError] that every caller in the scripts catches. *)

Class Runtime := {
  (** decimal value of a code point above ASCII that is a decimal digit
      (category Nd): [\d] in [re] and the digits [int] accepts *)
  uni_decimal : N -> option Z;
  (** [str.isdigit] on a code point above ASCII *)
  uni_isdigit : N -> bool;
  (** [uni_ieq p c]: whether the code point [c] above ASCII matches the
      ASCII letter [p] of a pattern under [re.IGNORECASE] *)
  uni_ieq : N -> N -> bool;
  (** [int(s)] on a string longer than the default limit on integer
      string conversion (4300 digits) *)
  int_long : str -> option Z;
  (** [datetime.fromisoformat(s)] *)
  fromisoformat : str -> option datetime;
  (** [datetime.strptime(data, format)] *)
  strptime : str -> str -> option datetime;
  (** [Path(p).stem] *)
  path_stem : str -> str
}.

(** ** Regular expressions: the part of [re] the parser uses

    A backtracking matcher with the order of alternatives and the greedy
    repetition of [re].  Every repetition in the parser's patterns has a
    body that consumes at least one character; an iteration that consumes
    nothing ends the repetition. *)

Module Re.

Inductive atom :=
| Lit (c : N)              (* a literal character *)
| Digit                    (* \d *)
| Space                    (* \s *)
| NotSpace                 (* \S *)
| Any                      (* .  : any character but a newline *)
| OneOf (cs : list N)      (* [abc] *)
| NoneOf (cs : list N).    (* [^abc] *)

Inductive regex :=
| Atom (a : atom)
| Empty
| Seq (r1 r2 : regex)
| Alt (r1 r2 : regex)                       (* r1|r2 *)
| Rep (lo : nat) (hi : option nat) (r : regex)  (* greedy r{lo,hi} *)
| Group (n : nat) (r : regex)               (* the n-th capturing group *)
| Bol                                       (* ^ *)
| Eol.                                      (* $ *)

Definition star := Rep 0 None.
Definition plus := Rep 1 None.
Definition opt := Rep 0 (Some 1).

Fixpoint seqs (rs : list regex) : regex :=
  match rs with
  | [] => Empty
  | [r] => r
  | r :: rs' => Seq r (seqs rs')
  end.

Fixpoint alts (rs : list regex) : regex :=
  match rs with
  | [] => Empty
  | [r] => r
  | r :: rs' => Alt r (alts rs')
  end.

(** A literal run of characters. *)
Definition lits (s : string) : regex := seqs (Atom ∘ Lit <$> lit s).

Definition ascii_lower (c : N) : N :=
  if ((65 <=? c) && (c <=? 90))%N then (c + 32)%N else c.

Definition is_ascii_letter (c : N) : bool :=
  ((65 <=? c) && (c <=? 90) || (97 <=? c) && (c <=? 122))%N.

Section Matcher.
Context {rt : Runtime}.

Definition is_digit (c : N) : bool :=
  if (c <? 128)%N then ((48 <=? c) && (c <=? 57))%N
  else bool_decide (is_Some (uni_decimal c)).

(** Whether the pattern character [p] matches the input character [c]
    under the [IGNORECASE] flag [icase].  Only letters have case: the
    characters of the parser's patterns are ASCII or symbols without
    case (U+FFFD and the bullets), so case matters for an ASCII letter
    of the pattern only. *)
Definition char_eq (icase : bool) (p c : N) : bool :=
  (p =? c)%N
  || icase && is_ascii_letter p
     && (if (c <? 128)%N then (ascii_lower p =? ascii_lower c)%N
         else uni_ieq p c).

Definition atom_ok (icase : bool) (a : atom) (c : N) : bool :=
  match a with
  | Lit p => char_eq icase p c
  | Digit => is_digit c
  | Space => isspace c
  | NotSpace => negb (isspace c)
  | Any => negb (c =? 10)%N
  | OneOf cs => existsb (fun p => char_eq icase p c) cs
  | NoneOf cs => negb (existsb (fun p => char_eq icase p c) cs)
  end.

(** The groups captured so far, most recent first. *)
Definition captures := list (nat * str).

(** What remains to be matched: called with the offset reached, the rest
    of the subject and the groups captured. *)
Definition cont (A : Type) : Type := nat -> str -> captures -> option A.

(** Greedy repetition of [body] between [lo] and [hi] times, then [k]:
    one more iteration is tried first, and the repetition stops where the
    rest of the match succeeds.  [fuel] bounds the number of iterations;
    each one consumes a character, so the length of the subject plus one
    is enough. *)
Fixpoint rep {A} (body : nat -> str -> captures -> cont A -> option A)
    (k : cont A) (fuel lo : nat) (hi : option nat) (pos : nat) (s : str)
    (g : captures) : option A :=
  match fuel with
  | O => None
  | S fuel' =>
      let stop := match lo with O => k pos s g | S _ => None end in
      match hi with
      | Some O => stop
      | _ =>
          match body pos s g
                  (fun pos' s' g' =>
                     if (pos <? pos')%nat
                     then rep body k fuel' (pred lo) (pred <$> hi) pos' s' g'
                     else None) with
          | Some x => Some x
          | None => stop
          end
      end
  end.

(** [run icase r pos s g k]: match [r] at offset [pos], where [s] is the
    rest of the subject, then [k].  The first success in [re]'s search
    order is returned. *)
Fixpoint run {A} (icase : bool) (r : regex) (pos : nat) (s : str)
    (g : captures) (k : cont A) : option A :=
  match r with
  | Atom a =>
      match s with
      | c :: s' => if atom_ok icase a c then k (S pos) s' g else None
      | [] => None
      end
  | Empty => k pos s g
  | Seq r1 r2 =>
      run icase r1 pos s g (fun pos' s' g' => run icase r2 pos' s' g' k)
  | Alt r1 r2 =>
      match run icase r1 pos s g k with
      | Some x => Some x
      | None => run icase r2 pos s g k
      end
  | Rep lo hi body => rep (run icase body) k (S (length s)) lo hi pos s g
  | Group n body =>
      run icase body pos s g
        (fun pos' s' g' => k pos' s' ((n, take (pos' - pos) s) :: g'))
  | Bol => match pos with O => k pos s g | S _ => None end
  | Eol =>
      match s with
      | [] => k pos s g
      | [c] => if (c =? 10)%N then k pos s g else None
      | _ => None
      end
  end.

(** [pattern.match(s)]: the captured groups of a match at the start of
    [s]. *)
Definition match_ (icase : bool) (r : regex) (s : str) : option captures :=
  run icase r 0 s [] (fun _ _ g => Some g).

(** [m.group(n)] *)
Fixpoint group (g : captures) (n : nat) : option str :=
  match g with
  | (m, t) :: g' => if (m =? n)%nat then Some t else group g' n
  | [] => None
  end.

(** The offset and the rest of the subject after a match at [pos]. *)
Definition match_at (icase : bool) (r : regex) (pos : nat) (s : str)
  : option (nat * str) :=
  run icase r pos s [] (fun pos' s' _ => Some (pos', s')).

(** [pattern.sub('', s)]: delete every match, scanning from the left. *)
Fixpoint sub_from (fuel : nat) (icase : bool) (r : regex) (pos : nat) (s : str)
  : str :=
  match fuel, s with
  | S fuel', c :: s' =>
      match match_at icase r pos s with
      | Some (pos', rest) =>
          if (pos <? pos')%nat then sub_from fuel' icase r pos' rest
          else c :: sub_from fuel' icase r (S pos) s'
      | None => c :: sub_from fuel' icase r (S pos) s'
      end
  | _, _ => s
  end.

Definition sub (icase : bool) (r : regex) (s : str) : str :=
  sub_from (length s) icase r 0 s.

End Matcher.
End Re.

(** ** [parse_mirc_logs.py] *)

Module Parser.
Import Re.

(** *** Patterns *)

(** "\x03(\d{1,2}(,\d{1,2})?)?" *)
Definition MIRC_COLOR_PATTERN : regex :=
  Seq (Atom (Lit 3))
      (opt (Group 1 (Seq (Rep 1 (Some 2) (Atom Digit))
                         (opt (Group 2 (Seq (Atom (Lit (chr ",")))
                                            (Rep 1 (Some 2) (Atom Digit)))))))).

Definition MIRC_BOLD : N := 2.
Definition MIRC_ITALIC : N := 29.
Definition MIRC_UNDERLINE : N := 31.
Definition MIRC_STRIKETHROUGH : N := 30.
Definition MIRC_REVERSE : N := 22.
Definition MIRC_RESET : N := 15.

(** The code points between the brackets of [MIRC_DECORATIONS], in the
    order of the source. *)
Definition DECORATION_CHARS : list N :=
  [9472; 9474; 9484; 9488; 9492; 9496; 9500; 9508; 9516; 9524; 9532; 9552;
   9553; 9554; 9555; 9556; 9557; 9558; 9559; 9560; 9561; 9562; 9563; 9564;
   9565; 9566; 9567; 9568; 9569; 9570; 9571; 9572; 9573; 9574; 9575; 9576;
   9577; 9578; 9579; 9580; 9600; 9604; 9608; 9612; 9616; 9617; 9618; 9619;
   9632; 9633; 9642; 9643; 9658; 9668; 9650; 9660; 9674; 9675; 9679; 9688;
   9689; 9786; 9787; 9824; 9827; 9829; 9830; 9834; 9835; 9788; 9658; 9668;
   8597; 8252; 182; 167; 9644; 8616; 8593; 8595; 8594; 8592; 8735; 8596;
   9650; 9660; 8962]%N.

(** "[...]+" *)
Definition MIRC_DECORATIONS : regex := plus (Atom (OneOf DECORATION_CHARS)).

(** "^Session Start: (.+)$" *)
Definition SESSION_START_PATTERN : regex :=
  seqs [Bol; lits "Session Start: "; Group 1 (plus (Atom Any)); Eol].

(** "^Session Close: (.+)$" *)
Definition SESSION_CLOSE_PATTERN : regex :=
  seqs [Bol; lits "Session Close: "; Group 1 (plus (Atom Any)); Eol].

(** "^Session Ident: (\S+)" *)
Definition SESSION_IDENT_PATTERN : regex :=
  seqs [Bol; lits "Session Ident: "; Group 1 (plus (Atom NotSpace))].

(** "\[(\d{1,2}:\d{2})\]", the time stamp both message patterns open
    with. *)
Definition TIME_STAMP : regex :=
  seqs [Atom (Lit (chr "["));
        Group 1 (seqs [Rep 1 (Some 2) (Atom Digit); Atom (Lit (chr ":"));
                       Rep 2 (Some 2) (Atom Digit)]);
        Atom (Lit (chr "]"))].

(** "^\[(\d{1,2}:\d{2})\]\s+\[([^\]]+)\]\s+(.*" followed by ")$" *)
Definition OTHER_USER_MSG_PATTERN : regex :=
  seqs [Bol; TIME_STAMP; plus (Atom Space);
        Atom (Lit (chr "[")); Group 2 (plus (Atom (NoneOf [chr "]"])));
        Atom (Lit (chr "]")); plus (Atom Space);
        Group 3 (star (Atom Any)); Eol].

(** "^\[(\d{1,2}:\d{2})\]\s+\(([^)]+)\)\s+(.*" followed by ")$" *)
Definition YOUR_MSG_PATTERN : regex :=
  seqs [Bol; TIME_STAMP; plus (Atom Space);
        Atom (Lit (chr "(")); Group 2 (plus (Atom (NoneOf [chr ")"])));
        Atom (Lit (chr ")")); plus (Atom Space);
        Group 3 (star (Atom Any)); Eol].

(** The characters of "[�★☆●○]". *)
Definition BULLETS : list N := [65533; 9733; 9734; 9679; 9675]%N.

(** "^\s*\[<word>", the shape of the whois patterns. *)
Definition whois (word : string) : regex :=
  seqs [Bol; star (Atom Space); Atom (Lit (chr "[")); lits word].

(** [NOISE_PATTERNS]: each pattern with its [IGNORECASE] flag. *)
Definition NOISE_PATTERNS : list (bool * regex) :=
  [ (* "^\[.*\]\s*[�★☆●○]\s*(joins|parts|quits|nick change|mode)" *)
    (true, seqs [Bol; Atom (Lit (chr "[")); star (Atom Any); Atom (Lit (chr "]"));
                 star (Atom Space); Atom (OneOf BULLETS); star (Atom Space);
                 Group 1 (alts [lits "joins"; lits "parts"; lits "quits";
                                lits "nick change"; lits "mode"])]);
    (* "^[�★☆●○]\s*(joins|parts|quits|nick change|mode|\[)" *)
    (true, seqs [Bol; Atom (OneOf BULLETS); star (Atom Space);
                 Group 1 (alts [lits "joins"; lits "parts"; lits "quits";
                                lits "nick change"; lits "mode";
                                Atom (Lit (chr "["))])]);
    (* "^\*\*\*\s+(Disconnected|Retrieving|Connecting)" *)
    (true, seqs [Bol; lits "***"; plus (Atom Space);
                 Group 1 (alts [lits "Disconnected"; lits "Retrieving";
                                lits "Connecting"])]);
    (* "^\[\s*topic\.\.|modes\.\.|by\.\.|time\.\." *)
    (true, alts [seqs [Bol; Atom (Lit (chr "[")); star (Atom Space); lits "topic.."];
                 lits "modes.."; lits "by.."; lits "time.."]);
    (* "^[�_]+\[" *)
    (true, seqs [Bol; plus (Atom (OneOf [65533; chr "_"]%N)); Atom (Lit (chr "["))]);
    (* "^[�]+\[" *)
    (true, seqs [Bol; plus (Atom (OneOf [65533]%N)); Atom (Lit (chr "["))]);
    (true, whois "u@h:");
    (true, whois "realname:");
    (true, whois "channels:");
    (true, whois "server:");
    (true, whois "idle:");
    (* "^\d{2}\s*[\[\-\*]" *)
    (true, seqs [Bol; Rep 2 (Some 2) (Atom Digit); star (Atom Space);
                 Atom (OneOf [chr "["; chr "-"; chr "*"])]);
    (* "^Local host:" *)
    (true, seqs [Bol; lits "Local host:"]);
    (* "^\s*$" *)
    (false, seqs [Bol; star (Atom Space); Eol]) ].

(** *** Data classes *)

Record Session := {
  session_id : str;
  source_file : str;
  channel : option str;
  target_nick : option str;
  start_time : option datetime;
  end_time : option datetime;
  participants : list str;
  messages : list Message;
  network : option str
}.

Section WithRuntime.
Context {rt : Runtime}.

(** *** Parser functions *)

(** [text.replace(code, '')] for a one-character [code]. *)
Definition remove_char (code : N) (text : str) : str :=
  filter (fun c => c ≠ code) text.

Definition strip_mirc_codes (text : str) : str :=
  let text := sub false MIRC_COLOR_PATTERN text in
  let text :=
    foldl (fun text code => remove_char code text) text
      [MIRC_BOLD; MIRC_ITALIC; MIRC_UNDERLINE; MIRC_STRIKETHROUGH;
       MIRC_REVERSE; MIRC_RESET] in
  let text := sub false MIRC_DECORATIONS text in
  strip text.

Definition is_noise_line (line : str) : bool :=
  let cleaned := strip_mirc_codes line in
  existsb (fun p => bool_decide (is_Some (match_ p.1 p.2 cleaned))) NOISE_PATTERNS.

Definition DATETIME_FORMATS : list str :=
  [lit "%a %b %d %H:%M:%S %Y"; lit "%a %b %d %H:%M:%S %y";
   lit "%a %b  %d %H:%M:%S %Y"].

(** [parse_datetime]: the first format that [strptime] accepts. *)
Definition parse_datetime (date_str : str) : option datetime :=
  let date_str := strip date_str in
  (fix try (formats : list str) : option datetime :=
     match formats with
     | fmt :: rest =>
         match strptime date_str fmt with
         | Some d => Some d
         | None => try rest
         end
     | [] => None
     end) DATETIME_FORMATS.

(** [s.isdigit()] *)
Definition isdigit (s : str) : bool :=
  negb (bool_decide (s = []))
  && forallb (fun c => if (c <? 128)%N then ((48 <=? c) && (c <=? 57))%N
                       else uni_isdigit c) s.

(** [s.rsplit('.', 1)]: [Some (before, after)] when [s] has a dot, split
    at the last one. *)
Definition rsplit_dot (s : str) : option (str * str) :=
  match split_on (chr ".") (reverse s) with
  | after :: b :: bs => Some (reverse (join [chr "."] (b :: bs)), reverse after)
  | _ => None
  end.

Definition startswith (p s : str) : bool := bool_decide (take (length p) s = p).

Definition extract_channel_info (filename : str)
  : option str * option str * option str :=
  let base := path_stem filename in
  let is_channel := startswith (lit "#") base || startswith (lit "@") base in
  let '(name, network) :=
    match rsplit_dot base with
    | Some (name, suffix) =>
        if negb (isdigit suffix) then (name, Some suffix) else (base, None)
    | None => (base, None)
    end in
  (if is_channel then Some name else None,
   if is_channel then None else Some name,
   network).

(** *** Reading the file *)

Inductive encoding := utf_8 | cp1252 | latin_1 | iso_8859_1.

(** What [open(filepath, 'r', encoding=..., errors='replace')] followed by
    [f.readlines()] does: the decoded text, or an [OSError] for a file
    that cannot be opened or read.  With [errors='replace'] a byte
    sequence that is malformed in the encoding is decoded as U+FFFD, so
    that no read raises [UnicodeDecodeError]. *)
Inductive read_result :=
| ReadOk (text : str)
| OSError.

(** The files the parser can see: what reading the file at a path gives
    under each encoding. *)
Definition filesystem := str -> encoding -> read_result.

(** Text mode with universal newlines: "\r\n" and "\r" are read as
    "\n". *)
Fixpoint universal_newlines (s : str) : str :=
  match s with
  | [] => []
  | c :: s' =>
      if (c =? 13)%N then
        10%N :: match s' with
                | c' :: s'' =>
                    if (c' =? 10)%N then universal_newlines s''
                    else universal_newlines s'
                | [] => []
                end
      else c :: universal_newlines s'
  end.

(** The lines of a text, each with its newline. *)
Fixpoint lines_of (s : str) : list str :=
  match s with
  | [] => []
  | c :: s' =>
      if (c =? 10)%N then [c] :: lines_of s'
      else match lines_of s' with
           | l :: ls => (c :: l) :: ls
           | [] => [[c]]
           end
  end.

Definition readlines (text : str) : list str :=
  lines_of (universal_newlines text).

Definition ENCODINGS : list encoding := [utf_8; cp1252; latin_1; iso_8859_1].

Inductive content_result :=
| Content (lines : list str)     (* [content] was assigned *)
| NoContent                      (* [content is None] after the loop *)
| Raised.                        (* an exception left the loop *)

(** The loop over [encodings].  Its first iteration ends it: the read
    either succeeds, and the loop breaks, or raises an exception that is
    no [UnicodeDecodeError], and the handler with [continue] is not
    entered. *)
Definition read_content (fs : filesystem) (filepath : str)
    (encodings : list encoding) : content_result :=
  match encodings with
  | enc :: _ =>
      match fs filepath enc with
      | ReadOk text => Content (readlines text)
      | OSError => Raised
      end
  | [] => NoContent
  end.

(** *** The session builder *)

(** The local variables of [parse_log_file] that change from line to
    line. *)
Record state := {
  current_session : option Session;
  session_count : nat;
  participants_set : gset str
}.

Definition initial_state : state :=
  {| current_session := None; session_count := 0; participants_set := ∅ |}.

(** What is constant for one file. *)
Record file_info := {
  fi_filepath : str;
  fi_channel : option str;
  fi_target_nick : option str;
  fi_network : option str
}.

Definition falsy (s : option str) : bool :=
  match s with
  | None | Some [] => true
  | Some (_ :: _) => false
  end.

(** [current_session and current_session.messages], then the [yield]. *)
Definition flush (st : state) : list Session :=
  match current_session st with
  | Some s =>
      match messages s with
      | [] => []
      | _ :: _ =>
          [ {| session_id := session_id s; source_file := source_file s;
               channel := channel s; target_nick := target_nick s;
               start_time := start_time s; end_time := end_time s;
               participants := merge_sort str_le (elements (participants_set st));
               messages := messages s; network := network s |} ]
      end
  | None => []
  end.

Definition with_end_time (s : Session) (t : option datetime) : Session :=
  {| session_id := session_id s; source_file := source_file s;
     channel := channel s; target_nick := target_nick s;
     start_time := start_time s; end_time := t;
     participants := participants s; messages := messages s;
     network := network s |}.

Definition with_target_nick (s : Session) (n : str) : Session :=
  {| session_id := session_id s; source_file := source_file s;
     channel := channel s; target_nick := Some n;
     start_time := start_time s; end_time := end_time s;
     participants := participants s; messages := messages s;
     network := network s |}.

(** [current_session.messages.append(msg)] *)
Definition append_message (s : Session) (msg : Message) : Session :=
  {| session_id := session_id s; source_file := source_file s;
     channel := channel s; target_nick := target_nick s;
     start_time := start_time s; end_time := end_time s;
     participants := participants s; messages := messages s ++ [msg];
     network := network s |}.

(** The message a match [m] of one of the two message patterns gives. *)
Definition message_of (m : captures) (is_self : bool) : Message :=
  {| Msg.time := default [] (group m 1);
     Msg.nick := default [] (group m 2);
     Msg.text := strip (default [] (group m 3));
     Msg.is_self := is_self |}.

(** [if msg.text: ...append(msg); participants.add(msg.nick)] *)
Definition add_message (st : state) (s : Session) (msg : Message) : state :=
  match Msg.text msg with
  | [] => st
  | _ :: _ =>
      {| current_session := Some (append_message s msg);
         session_count := session_count st;
         participants_set := participants_set st ∪ {[ Msg.nick msg ]} |}
  end.

(** One iteration of [for line in content]: the sessions it yields and
    the next state. *)
Definition process_line (fi : file_info) (st : state) (line : str)
  : list Session * state :=
  let line := rstrip_chars [10; 13]%N line in
  match match_ false SESSION_START_PATTERN line with
  | Some m =>
      let session_count := S (session_count st) in
      let start_time := parse_datetime (default [] (group m 1)) in
      let session_id :=
        path_stem (fi_filepath fi) ++ lit "_" ++ zero_pad 4 session_count in
      (flush st,
       {| current_session :=
            Some {| session_id := session_id; source_file := fi_filepath fi;
                    channel := fi_channel fi; target_nick := fi_target_nick fi;
                    start_time := start_time; end_time := None;
                    participants := []; messages := [];
                    network := fi_network fi |};
          session_count := session_count;
          participants_set := ∅ |})
  | None =>
  match match_ false SESSION_CLOSE_PATTERN line, current_session st with
  | Some m, Some s =>
      ([], {| current_session :=
                Some (with_end_time s (parse_datetime (default [] (group m 1))));
              session_count := session_count st;
              participants_set := participants_set st |})
  | _, _ =>
  match match_ false SESSION_IDENT_PATTERN line, current_session st,
        falsy (fi_channel fi) with
  | Some m, Some s, true =>
      let ident := default [] (group m 1) in
      if negb (startswith (lit "#") ident)
         && negb (bool_decide (ident ∈ [lit "Status"; lit "Window"]))
      then ([], {| current_session := Some (with_target_nick s ident);
                   session_count := session_count st;
                   participants_set := participants_set st |})
      else ([], st)
  | _, _, _ =>
  match current_session st with
  | None => ([], st)
  | Some s =>
      if is_noise_line line then ([], st)
      else
        let cleaned_line := strip_mirc_codes line in
        match match_ false OTHER_USER_MSG_PATTERN cleaned_line with
        | Some m => ([], add_message st s (message_of m false))
        | None =>
            match match_ false YOUR_MSG_PATTERN cleaned_line with
            | Some m => ([], add_message st s (message_of m true))
            | None => ([], st)
            end
        end
  end end end end.

(** The [for] loop and the flush after it. *)
Fixpoint parse_lines (fi : file_info) (st : state) (content : list str)
  : list Session :=
  match content with
  | line :: rest =>
      let '(out, st') := process_line fi st line in
      out ++ parse_lines fi st' rest
  | [] => flush st
  end.

(** What goes to [sys.stderr]. *)
Inductive diagnostic :=
| Warning_could_not_read        (* "Warning: Could not read ... with any encoding" *)
| Error_parsing.                (* "Error parsing ...: ..." *)

Record parse_result := {
  sessions : list Session;
  stderr : list diagnostic
}.

(** [channel, target_nick, network = extract_channel_info(filepath)] *)
Definition file_info_of (filepath : str) : file_info :=
  let info := extract_channel_info filepath in
  {| fi_filepath := filepath; fi_channel := info.1.1;
     fi_target_nick := info.1.2; fi_network := info.2 |}.

(** [parse_log_file]: the sessions the generator yields before it ends and
    what it prints. *)
Definition parse_log_file (fs : filesystem) (filepath : str) : parse_result :=
  match read_content fs filepath ENCODINGS with
  | Content content =>
      {| sessions := parse_lines (file_info_of filepath) initial_state content;
         stderr := [] |}
  | NoContent => {| sessions := []; stderr := [Warning_could_not_read] |}
  | Raised => {| sessions := []; stderr := [Error_parsing] |}
  end.

End WithRuntime.
End Parser.

(** ** [chunk_sessions.py] *)

Module Chunker.

Definition MAX_MESSAGES_PER_CHUNK : nat := 20.
Definition MAX_CHARS_PER_CHUNK : Z := 8000.
Definition TIME_GAP_MINUTES : Z := 30.

Record Chunk := {
  chunk_id : str;
  session_id : str;
  source_file : str;
  channel : option str;
  target_nick : option str;
  network : option str;
  participants : list str;
  start_time : option str;
  end_time : option str;
  year : option Z;
  decade : option str;
  text : str;
  message_count : nat;
  chunk_index : nat
}.

(** One line of the parser's JSONL output after [json.loads]: the keys
    [chunk_session] reads. *)
Record SessionDict := {
  s_session_id : str;
  s_source_file : str;
  s_channel : option str;
  s_target_nick : option str;
  s_network : option str;
  s_start_time : option str;
  s_messages : list Message
}.

Section WithRuntime.
Context {rt : Runtime}.

Definition digit_value (c : N) : option Z :=
  if (c <? 128)%N
  then if ((48 <=? c) && (c <=? 57))%N then Some (Z.of_N c - 48)%Z else None
  else uni_decimal c.

(** The digits of an [int] literal: digits, with single underscores
    allowed between two digits.  [acc] is the value read so far and
    [after_digit] says whether the previous character was a digit. *)
Fixpoint int_digits (acc : Z) (after_digit : bool) (s : str) : option Z :=
  match s with
  | [] => if after_digit then Some acc else None
  | c :: s' =>
      if (c =? chr "_")%N then
        if after_digit then int_digits acc false s' else None
      else match digit_value c with
           | Some d => int_digits (acc * 10 + d)%Z true s'
           | None => None
           end
  end.

(** The white space [int] skips at both ends of a [str]: the ASCII white
    space of C (not the separators U+001C to U+001F, which [str.strip]
    removes), and the white space above ASCII. *)
Definition int_space (c : N) : bool :=
  ((9 <=? c) && (c <=? 13) || (c =? 32) || (128 <=? c) && isspace c)%N.

(** [int(s)] for a [str]. *)
Definition py_int (s : str) : option Z :=
  if (4300 <? length s)%nat then int_long s
  else match drop_while_end int_space (drop_while int_space s) with
       | c :: s' =>
           if (c =? chr "-")%N then Z.opp <$> int_digits 0 false s'
           else if (c =? chr "+")%N then int_digits 0 false s'
           else int_digits 0 false (c :: s')
       | [] => None
       end.

(** [parse_time].  The tuple unpacking [hour, minute = map(int, ...)]
    raises [ValueError] unless there are exactly two parts and both
    convert; the handler catches it, and the [ValueError] of [replace], but
    not the [OverflowError] of [replace]. *)
Definition parse_time (time_str : str) (session_date : option datetime)
  : raises (option datetime) :=
  match time_str, session_date with
  | [], _ => Return None
  | _, None => Return None
  | _, Some d =>
      match py_int <$> split_on (chr ":") time_str with
      | [Some hour; Some minute] => Calendar.replace_hm d hour minute
      | _ => Return None
      end
  end.

(** [f"{nick}: {text}"] *)
Definition format_line (msg : Message) : str :=
  Msg.nick msg ++ lit ": " ++ Msg.text msg.

Definition format_chunk_text (messages : list Message) : str :=
  join [10%N] (format_line <$> messages).

Definition str_of_Z (z : Z) : str :=
  lit (NilZero.string_of_int (Z.to_int z)).

Definition get_year_and_decade (dt : option datetime)
  : option Z * option str :=
  match dt with
  | None => (None, None)
  | Some d =>
      let year := dt_year d in
      let decade_start := (year / 10 * 10)%Z in
      (Some year, Some (str_of_Z decade_start ++ lit "s"))
  end.

(** The gap between two message times with the day rollover rule. *)
Definition gap_after (prev_time curr_time : datetime) : raises Z :=
  curr_time ← (if Calendar.lt curr_time prev_time
               then Calendar.add_one_day curr_time else Return curr_time);
  Return (Calendar.sub curr_time prev_time).

Definition should_split (prev_msg curr_msg : Message)
    (session_date : option datetime) : raises bool :=
  prev_time ← parse_time (Msg.time prev_msg) session_date;
  curr_time ← parse_time (Msg.time curr_msg) session_date;
  match prev_time, curr_time with
  | Some prev_time, Some curr_time =>
      gap ← gap_after prev_time curr_time;
      Return (Calendar.timedelta 0 TIME_GAP_MINUTES <? gap)%Z
  | _, _ => Return false
  end.

(** The [Chunk(...)] built from the buffer [current_chunk] at index
    [chunk_index]; the source writes the same expression at both
    [yield]s. *)
Definition make_chunk (session : SessionDict) (session_date : option datetime)
    (chunk_index : nat) (current_chunk : list Message) : Chunk :=
  let '(year, decade) := get_year_and_decade session_date in
  {| chunk_id := s_session_id session ++ lit "_chunk" ++ zero_pad 3 chunk_index;
     session_id := s_session_id session;
     source_file := s_source_file session;
     channel := s_channel session;
     target_nick := s_target_nick session;
     network := s_network session;
     participants := sorted_set (Msg.nick <$> current_chunk);
     start_time := Msg.time <$> head current_chunk;
     end_time := Msg.time <$> last current_chunk;
     year := year;
     decade := decade;
     text := format_chunk_text current_chunk;
     message_count := length current_chunk;
     chunk_index := chunk_index |}.

(** The local variables of the loop in [chunk_session]. *)
Record loop_state := {
  current_chunk : list Message;
  current_chars : Z;
  cur_index : nat
}.

(** [len(f"{nick}: {text}\n")] *)
Definition msg_chars (msg : Message) : Z :=
  Z.of_nat (length (format_line msg ++ [10%N])).

(** The three tests that set [should_start_new].  The time gap is tested
    first, whenever the buffer holds a message. *)
Definition should_start_new (session_date : option datetime)
    (st : loop_state) (msg : Message) : raises bool :=
  gap ← match last (current_chunk st) with
        | Some prev => should_split prev msg session_date
        | None => Return false
        end;
  Return (gap
          || (MAX_MESSAGES_PER_CHUNK <=? length (current_chunk st))%nat
          || (MAX_CHARS_PER_CHUNK <? current_chars st + msg_chars msg)%Z).

(** One iteration of the [for] loop.  Each yielded chunk comes with the
    buffer it was built from. *)
Definition loop_body (session : SessionDict) (session_date : option datetime)
    (st : loop_state) (msg : Message)
  : raises (list (list Message * Chunk) * loop_state) :=
  start_new ← should_start_new session_date st msg;
  let '(out, st) :=
    if start_new && negb (bool_decide (current_chunk st = []))
    then ([(current_chunk st,
            make_chunk session session_date (cur_index st) (current_chunk st))],
          {| current_chunk := []; current_chars := 0;
             cur_index := S (cur_index st) |})
    else ([], st) in
  Return (out, {| current_chunk := current_chunk st ++ [msg];
                  current_chars := current_chars st + msg_chars msg;
                  cur_index := cur_index st |}).

(** A run of a generator: what it yields, in order, and the exception
    that ends it, if one does. *)
Record generated (A : Type) := {
  yields : list A;
  raised : option exception
}.
Global Arguments yields {A} _.
Global Arguments raised {A} _.

(** The [for] loop and the last chunk after it. *)
Fixpoint loop (session : SessionDict) (session_date : option datetime)
    (st : loop_state) (messages : list Message)
  : generated (list Message * Chunk) :=
  match messages with
  | msg :: rest =>
      match loop_body session session_date st msg with
      | Return (out, st') =>
          let r := loop session session_date st' rest in
          {| yields := out ++ yields r; raised := raised r |}
      | Raise e => {| yields := []; raised := Some e |}
      end
  | [] =>
      {| yields :=
           match current_chunk st with
           | [] => []
           | _ :: _ =>
               [(current_chunk st,
                 make_chunk session session_date (cur_index st)
                   (current_chunk st))]
           end;
         raised := None |}
  end.

(** [session_date]: set when [start_time] is a non-empty string that
    [fromisoformat] accepts. *)
Definition session_date_of (session : SessionDict) : option datetime :=
  match s_start_time session with
  | Some (c :: s) => fromisoformat (c :: s)
  | _ => None
  end.

Definition initial_state : loop_state :=
  {| current_chunk := []; current_chars := 0; cur_index := 0 |}.

(** [chunk_session] as a run of the generator, each chunk next to the
    buffer it was built from. *)
Definition chunk_session_run (session : SessionDict)
  : generated (list Message * Chunk) :=
  match s_messages session with
  | [] => {| yields := []; raised := None |}
  | messages => loop session (session_date_of session) initial_state messages
  end.

Definition chunk_session_trace (session : SessionDict)
  : list (list Message * Chunk) :=
  yields (chunk_session_run session).

(** The exception that ends [chunk_session], if one does. *)
Definition chunk_session_raised (session : SessionDict) : option exception :=
  raised (chunk_session_run session).

(** The chunks [chunk_session] yields, in order. *)
Definition chunk_session (session : SessionDict) : list Chunk :=
  snd <$> chunk_session_trace session.

(** The buffered messages behind each yielded chunk, in order. *)
Definition chunk_buffers (session : SessionDict) : list (list Message) :=
  fst <$> chunk_session_trace session.

(** *** [process_sessions] *)

Definition DEFAULT_MIN_MESSAGES : nat := 3.







End WithRuntime.
End Chunker.

(** ** A small interpreter

    An instance of [Runtime] to run the scripts on examples: ASCII only,
    fixed-width ISO and ctime layouts, POSIX paths. *)

Module Small.

Definition digit (c : N) : option Z :=
  if ((48 <=? c) && (c <=? 57))%N then Some (Z.of_N c - 48)%Z else None.

(** The value of a run of ASCII digits. *)
Fixpoint number (acc : Z) (s : str) : option Z :=
  match s with
  | [] => Some acc
  | c :: s' => d ← digit c; number (acc * 10 + d)%Z s'
  end.

(** The field of [s] at offset [i], [n] digits wide. *)
Definition field (s : str) (i n : nat) : option Z :=
  let f := take n (drop i s) in
  if (length f =? n)%nat then number 0 f else None.

Definition make_datetime (y mo d h mi s : Z) : option datetime :=
  if ((1 <=? y) && (y <=? 9999) && (1 <=? mo) && (mo <=? 12)
      && (1 <=? d) && (d <=? Calendar.days_in_month y mo)
      && (0 <=? h) && (h <=? 23) && (0 <=? mi) && (mi <=? 59)
      && (0 <=? s) && (s <=? 59))%Z
  then Some {| dt_year := y; dt_month := mo; dt_day := d; dt_hour := h;
               dt_minute := mi; dt_second := s; dt_microsecond := 0 |}
  else None.

(** "YYYY-MM-DDTHH:MM:SS" *)
Definition iso (s : str) : option datetime :=
  if bool_decide (length s = 19%nat
                  ∧ (λ i, s !! i) <$> [4; 7; 10; 13; 16]%nat
                    = Some <$> lit "--T::")
  then y ← field s 0 4; mo ← field s 5 2; d ← field s 8 2;
       h ← field s 11 2; mi ← field s 14 2; sec ← field s 17 2;
       make_datetime y mo d h mi sec
  else None.

Definition MONTHS : list str :=
  lit <$> ["Jan"; "Feb"; "Mar"; "Apr"; "May"; "Jun";
           "Jul"; "Aug"; "Sep"; "Oct"; "Nov"; "Dec"]%string.

Definition WEEKDAYS : list str :=
  lit <$> ["Mon"; "Tue"; "Wed"; "Thu"; "Fri"; "Sat"; "Sun"]%string.

Fixpoint index_of (x : str) (l : list str) : option nat :=
  match l with
  | [] => None
  | y :: l' => if bool_decide (x = y) then Some O else S <$> index_of x l'
  end.

(** "Www Mmm DD HH:MM:SS YYYY" under the layout "%a %b %d %H:%M:%S %Y". *)
Definition ctime (data format : str) : option datetime :=
  if bool_decide (format = lit "%a %b %d %H:%M:%S %Y"
                  ∧ length data = 24%nat
                  ∧ (λ i, data !! i) <$> [3; 7; 10; 13; 16; 19]%nat
                    = Some <$> lit "   :: ")
  then _ ← index_of (take 3 data) WEEKDAYS;
       mo ← index_of (take 3 (drop 4 data)) MONTHS;
       d ← field data 8 2; h ← field data 11 2; mi ← field data 14 2;
       sec ← field data 17 2; y ← field data 20 4;
       make_datetime y (Z.of_nat (S mo)) d h mi sec
  else None.

(** The last component of a path, without its last suffix. *)
Definition stem (p : str) : str :=
  let name := default [] (last (split_on (chr "/") p)) in
  match Parser.rsplit_dot name with
  | Some (c :: before, _ :: _) => c :: before
  | _ => name
  end.

Definition runtime : Runtime := {|
  uni_decimal := λ _, None;
  uni_isdigit := λ _, false;
  uni_ieq := λ _ _, false;
  int_long := λ _, None;
  fromisoformat := iso;
  strptime := ctime;
  path_stem := stem
|}.

End Small.

(** ** Vocabulary of the specification *)

Module Spec.
Import Chunker.

Section WithRuntime.
Context {rt : Runtime}.

(** Minutes since midnight. *)
Definition minute_of_day (t : datetime) : Z :=
  (dt_hour t * 60 + dt_minute t)%Z.

(** The gap between two message times with the day rollover rule: a later
    message whose time is smaller is taken to be on the next day. *)
Definition rollover_gap (prev_time curr_time : datetime) : Z :=
  Calendar.sub
    (if Calendar.lt curr_time prev_time then Calendar.next_day curr_time
     else curr_time)
    prev_time.

(** The characters the loop of [chunk_session] counts for a buffer. *)
Definition sum_chars (buf : list Message) : Z :=
  foldr (λ m acc, msg_chars m + acc)%Z 0%Z buf.

(** No two neighbours of the buffer are split by [should_split]. *)
Fixpoint no_split (session_date : option datetime) (buf : list Message) : Prop :=
  match buf with
  | m1 :: (m2 :: _) as rest =>
      should_split m1 m2 session_date = Return false
      ∧ no_split session_date rest
  | _ => True
  end.

(** The bounds a buffer keeps while [chunk_session] fills it. *)
Definition buffer_ok (sd : option datetime) (buf : list Message) : Prop :=
  (length buf ≤ MAX_MESSAGES_PER_CHUNK)%nat
  ∧ ((sum_chars buf ≤ MAX_CHARS_PER_CHUNK)%Z
     ∨ ∃ m, buf = [m] ∧ (MAX_CHARS_PER_CHUNK < msg_chars m)%Z)
  ∧ no_split sd buf.

Definition state_ok (sd : option datetime) (st : loop_state) : Prop :=
  current_chars st = sum_chars (current_chunk st)
  ∧ buffer_ok sd (current_chunk st).





(** *** The text normalizer, from its description

    A color code is the escape character U+0003, optionally followed by
    one or two digits and, after them, optionally by a comma and one or
    two more digits.  The style toggles are single characters.  The
    decorative glyphs are a fixed set. *)

(** The number of leading digits of [s], two at most. *)
Definition digits12 (s : str) : nat :=
  match s with
  | c1 :: c2 :: _ =>
      if Re.is_digit c1 then if Re.is_digit c2 then 2 else 1 else 0
  | [c1] => if Re.is_digit c1 then 1 else 0
  | [] => 0
  end.

(** The number of characters after the escape character that belong to
    the color code, [s] being what follows the escape character. *)
Definition color_params (s : str) : nat :=
  match digits12 s with
  | O => 0
  | S n =>
      match drop (S n) s with
      | c :: s' =>
          if (c =? chr ",")%N
          then match digits12 s' with
               | O => S n
               | S m => S n + 1 + S m
               end
          else S n
      | [] => S n
      end
  end.

(** [code s]: when a code starts at the head of [s], the number of
    characters after the head that belong to it. *)
Definition color_code (s : str) : option nat :=
  match s with
  | c :: s' => if (c =? 3)%N then Some (color_params s') else None
  | [] => None
  end.

(** Delete every code, scanning from the left; [skip] characters are
    still to be deleted. *)
Fixpoint scan (code : str -> option nat) (skip : nat) (s : str) : str :=
  match s with
  | [] => []
  | c :: s' =>
      match skip with
      | S k => scan code k s'
      | O =>
          match code s with
          | Some n => scan code n s'
          | None => c :: scan code 0 s'
          end
      end
  end.

Definition STYLE_TOGGLES : list N :=
  [Parser.MIRC_BOLD; Parser.MIRC_ITALIC; Parser.MIRC_UNDERLINE;
   Parser.MIRC_STRIKETHROUGH; Parser.MIRC_REVERSE; Parser.MIRC_RESET].

(** The input without its color codes, style toggles and decorative
    glyphs, and nothing else removed. *)
Definition remove_codes (s : str) : str :=
  filter (λ c, (c ∉ STYLE_TOGGLES) ∧ (c ∉ Parser.DECORATION_CHARS))
    (scan color_code 0 s).

(** The length of the longest prefix of [s] whose characters satisfy
    [p]. *)
Fixpoint run_length (p : N → bool) (s : str) : nat :=
  match s with
  | c :: s' => if p c then S (run_length p s') else 0
  | [] => 0
  end.

(** The number of iterations a greedy repetition of one character class
    makes: the run of matching characters, cut at the upper bound. *)
Definition bounded (hi : option nat) (n : nat) : nat :=
  match hi with
  | Some h => h `min` n
  | None => n
  end.



End WithRuntime.
End Spec.

(** ** Example inputs *)

Module Examples.
Import Chunker.

Definition message (t n x : str) (self : bool) : Message :=
  {| Msg.time := t; Msg.nick := n; Msg.text := x; Msg.is_self := self |}.

Definition session_of (start : option str) (msgs : list Message) : SessionDict :=
  {| s_session_id := lit "log_0001"; s_source_file := lit "log.log";
     s_channel := None; s_target_nick := Some (lit "log"); s_network := None;
     s_start_time := start; s_messages := msgs |}.

Definition dec_9_2003 : datetime :=
  {| dt_year := 2003; dt_month := 12; dt_day := 9; dt_hour := 18;
     dt_minute := 27; dt_second := 34; dt_microsecond := 0 |}.

(** A session of one message whose text has 8000 characters. *)
Definition oversized : SessionDict :=
  session_of None
    [message (lit "18:30") (lit "a") (replicate (Z.to_nat 8000) (chr "x")) false].

Definition short (t : string) : Message :=
  message (lit t) (lit "a") (lit "hi") false.


Definition overnight_buffer : list Message := [short "23:55"; short "00:10"].

(** The last day a [datetime] can hold. *)
Definition dec_31_9999 : datetime :=
  {| dt_year := 9999; dt_month := 12; dt_day := 31; dt_hour := 18;
     dt_minute := 27; dt_second := 34; dt_microsecond := 0 |}.

(** A message whose hour, 2^32, is beyond a C [int]. *)
Definition late : Message :=
  message (lit "4294967296:00") (lit "a") (lit "hi") false.

(** Two messages around midnight, in a session that started on
    2003-12-09. *)
Definition overnight : SessionDict :=
  session_of (Some (lit "2003-12-09T18:27:34")) overnight_buffer.

(** The same two messages in a session that started on the last day of
    year 9999. *)
Definition overnight_9999 : SessionDict :=
  session_of (Some (lit "9999-12-31T18:27:34")) overnight_buffer.

(** A session of 2003-12-09 whose second message has an hour beyond a C
    [int]. *)
Definition late_session : SessionDict :=
  session_of (Some (lit "2003-12-09T18:27:34"))
    [short "18:30"; late; short "18:31"].

(** The four lines of the round trip, each ended by a newline; the last
    newline is there when [final_newline] is set. *)
Definition four_lines (final_newline : bool) : str :=
  lit "Session Start: Tue Dec 09 18:27:34 2003" ++ [10%N]
  ++ lit "[18:30] [alice] hello" ++ [10%N]
  ++ lit "[19:05] (bob) hi there" ++ [10%N]
  ++ lit "Session Close: Tue Dec 09 19:06:00 2003"
  ++ (if final_newline then [10%N] else []).

(** A file system with one file of ASCII text, which reads the same
    under the four encodings. *)
Definition one_file (text : str) : Parser.filesystem :=
  λ _ _, Parser.ReadOk text.

(** A log in cp1252 whose message ends in the byte E9 (e with acute
    accent, U+00E9): as UTF-8 the byte is malformed and is read as U+FFFD;
    the other three encodings read U+00E9. *)
Definition cafe_lines (e : N) : str :=
  lit "Session Start: Tue Dec 09 18:27:34 2003" ++ [10%N]
  ++ lit "[18:30] [alice] caf" ++ [e; 10%N].

Definition cafe_file : Parser.filesystem :=
  λ _ enc, match enc with
           | Parser.utf_8 => Parser.ReadOk (cafe_lines 65533)
           | _ => Parser.ReadOk (cafe_lines 233)
           end.

(** A join announcement with a round bullet (U+25CF), in the shape of a
    message line.  The bullet is one of the bullets of the noise patterns
    and one of the glyphs of [MIRC_DECORATIONS]. *)
Definition bullet_join : str :=
  lit "[18:31] [carol] " ++ [9679%N] ++ lit " joins #chat".

(** A session with a message of alice and then the join announcement. *)
Definition bullet_log : str :=
  lit "Session Start: Tue Dec 09 18:27:34 2003" ++ [10%N]
  ++ lit "[18:30] [alice] hello" ++ [10%N]
  ++ bullet_join ++ [10%N].

(** A join announcement with a star bullet (U+2605), in the shape of a
    message line. *)
Definition join_line : str :=
  lit "[18:31] [carol] " ++ [9733%N] ++ lit " joins #chat" ++ [10%N].

Definition dm_file : Parser.file_info :=
  {| Parser.fi_filepath := lit "alice.EFnet.log"; Parser.fi_channel := None;
     Parser.fi_target_nick := Some (lit "alice");
     Parser.fi_network := Some (lit "EFnet") |}.

(** The state of the parser after the first two of the four lines. *)
Definition one_message_state : Parser.state :=
  {| Parser.current_session :=
       Some {| Parser.session_id := lit "alice.EFnet_0001";
               Parser.source_file := lit "alice.EFnet.log";
               Parser.channel := None;
               Parser.target_nick := Some (lit "alice");
               Parser.start_time := Some dec_9_2003;
               Parser.end_time := None;
               Parser.participants := [];
               Parser.messages :=
                 [message (lit "18:30") (lit "alice") (lit "hello") false];
               Parser.network := Some (lit "EFnet") |};
     Parser.session_count := 1;
     Parser.participants_set := {[ lit "alice" ]} |}.

End Examples.


(** ** [parse_directory] *)

Module Driver.
Import Parser.

Definition DEFAULT_MIN_MESSAGES : nat := 2.



Section WithRuntime.
Context {rt : Runtime}.




End WithRuntime.
End Driver.

(** ** Further vocabulary *)

Module Notions.

(** The number a run of ASCII digits writes. *)
Definition digits_value (s : str) : nat :=
  foldl (λ acc c, acc * 10 + (N.to_nat c - 48)) 0 s.

Section WithRuntime.
Context {rt : Runtime}.

(** A reason to end the buffer [b1] before the message that opens [b2]:
    one of the three tests of the loop of [chunk_session]. *)
Definition boundary (sd : option datetime) (b1 b2 : list Message) : Prop :=
  ∃ prev m rest,
    last b1 = Some prev ∧ b2 = m :: rest
    ∧ (Chunker.should_split prev m sd = Return true
       ∨ length b1 = Chunker.MAX_MESSAGES_PER_CHUNK
       ∨ (Chunker.MAX_CHARS_PER_CHUNK
          < Spec.sum_chars b1 + Chunker.msg_chars m)%Z).

(** Every buffer but the last ends for a reason. *)
Fixpoint justified (sd : option datetime) (bufs : list (list Message))
  : Prop :=
  match bufs with
  | b1 :: (b2 :: _) as rest => boundary sd b1 b2 ∧ justified sd rest
  | _ => True
  end.

(** The lines [parse_log_file] takes for a Session Start. *)
Definition is_start_line (line : str) : bool :=
  bool_decide (is_Some (Re.match_ false Parser.SESSION_START_PATTERN
                          (rstrip_chars [10; 13]%N line))).

(** The number of Session Start lines. *)
Definition start_lines (content : list str) : nat :=
  length (filter (λ line, is_start_line line = true) content).

(** The session id of the [n]-th Session Start of a file. *)
Definition session_id_of (fi : Parser.file_info) (n : nat) : str :=
  path_stem (Parser.fi_filepath fi) ++ lit "_" ++ zero_pad 4 n.

(** A message text as [parse_log_file] stores it: not empty, and with no
    white space at either end. *)
Definition good_text (m : Message) : Prop :=
  Msg.text m ≠ [] ∧ strip (Msg.text m) = Msg.text m.

(** The session opened by the [k]-th Session Start of the file [fi]. *)
Definition described (fi : Parser.file_info) (k : nat) (s : Parser.Session)
  : Prop :=
  Parser.session_id s = session_id_of fi k
  ∧ 1 ≤ k
  ∧ Parser.source_file s = Parser.fi_filepath fi
  ∧ Parser.channel s = Parser.fi_channel fi
  ∧ Parser.network s = Parser.fi_network fi
  ∧ (Parser.falsy (Parser.fi_channel fi) = false →
     Parser.target_nick s = Parser.fi_target_nick fi)
  ∧ (is_Some (Parser.fi_target_nick fi) → is_Some (Parser.target_nick s))
  ∧ Forall good_text (Parser.messages s).

Definition well_opened (fi : Parser.file_info) (st : Parser.state) : Prop :=
  match Parser.current_session st with
  | Some s => described fi (Parser.session_count st) s
  | None => True
  end.

End WithRuntime.
End Notions.

(** ** Further examples *)

Module MoreExamples.
Import Chunker Examples.

(** Three short messages in a session without a date. *)
Definition three_short : SessionDict :=
  session_of None [short "18:30"; short "18:31"; short "18:32"].

(** A message line that comes before any Session Start. *)
Definition stray_line : str := lit "[18:29] [mallory] too early" ++ [10%N].

End MoreExamples.

(** * Properties *)

(** ** Calendar arithmetic *)

Section CalendarFacts.
Local Open Scope Z_scope.
Import Calendar.

Lemma days_before_next_year (y : Z) :
  days_before_year (y + 1) = days_before_year y + 365 + (if is_leap y then 1 else 0).
Proof.
  unfold days_before_year, is_leap.
  replace (y + 1 - 1) with y by lia.
  destruct (Z.eqb_spec (y mod 4) 0), (Z.eqb_spec (y mod 100) 0),
    (Z.eqb_spec (y mod 400) 0); simpl; Z.div_mod_to_equations; lia.
Qed.

Lemma month_cases (m : Z) :
  1 <= m <= 12 ->
  m = 1 \/ m = 2 \/ m = 3 \/ m = 4 \/ m = 5 \/ m = 6 \/ m = 7 \/ m = 8
  \/ m = 9 \/ m = 10 \/ m = 11 \/ m = 12.
Proof. lia. Qed.

(** The day after a valid date has the next ordinal. *)
Lemma toordinal_next_day (d : datetime) :
  valid d -> toordinal (next_day d) = toordinal d + 1.
Proof.
  intros (Hy & Hm & Hd & _).
  unfold toordinal, next_day.
  destruct (Z.ltb_spec (dt_day d) (days_in_month (dt_year d) (dt_month d))) as [Hlt|Hge];
    simpl; [lia|].
  assert (dt_day d = days_in_month (dt_year d) (dt_month d)) as Hlast by lia.
  rewrite Hlast. clear Hlast Hge Hd.
  destruct (Z.ltb_spec (dt_month d) 12) as [Hm12|Hm12]; simpl.
  - unfold days_before_month, days_in_month.
    destruct (month_cases _ Hm) as [E|[E|[E|[E|[E|[E|[E|[E|[E|[E|[E|E]]]]]]]]]]];
      rewrite E in *; simpl; destruct (is_leap (dt_year d)); simpl; lia.
  - assert (dt_month d = 12) as E by lia. rewrite E.
    rewrite days_before_next_year.
    unfold days_before_month, days_in_month. simpl.
    destruct (is_leap (dt_year d)); simpl; lia.
Qed.

End CalendarFacts.

(** ** The chunker *)

Section ChunkerFacts.
Context {rt : Runtime}.
Import Chunker Spec.

Lemma make_chunk_index session sd i buf :
  chunk_index (make_chunk session sd i buf) = i.
Proof. unfold make_chunk. by destruct (get_year_and_decade sd). Qed.

Lemma make_chunk_text session sd i buf :
  text (make_chunk session sd i buf) = format_chunk_text buf.
Proof. unfold make_chunk. by destruct (get_year_and_decade sd). Qed.

Lemma make_chunk_count session sd i buf :
  message_count (make_chunk session sd i buf) = length buf.
Proof. unfold make_chunk. by destruct (get_year_and_decade sd). Qed.

(** The three ways through the loop body: the gap test raises; the
    message joins the buffer; the buffer is yielded and the message starts
    the next one. *)
Lemma loop_body_cases session sd st msg :
  (∃ e, loop_body session sd st msg = Raise e
        ∧ should_start_new sd st msg = Raise e)
  ∨ (loop_body session sd st msg
     = Return ([], {| current_chunk := current_chunk st ++ [msg];
                      current_chars := current_chars st + msg_chars msg;
                      cur_index := cur_index st |})
     ∧ (current_chunk st = [] ∨ should_start_new sd st msg = Return false))
  ∨ (loop_body session sd st msg
     = Return ([(current_chunk st,
                 make_chunk session sd (cur_index st) (current_chunk st))],
               {| current_chunk := [msg];
                  current_chars := 0 + msg_chars msg;
                  cur_index := S (cur_index st) |})
     ∧ current_chunk st ≠ []
     ∧ should_start_new sd st msg = Return true).
Proof.
  unfold loop_body.
  destruct (should_start_new sd st msg) as [[|]|e] eqn:E; simpl.
  - case_bool_decide as Hb; simpl.
    + right. left. by split; [|left].
    + right. right. done.
  - right. left. by split; [|right].
  - left. by exists e.
Qed.

Lemma loop_cons_return session sd st msg rest out st' :
  loop_body session sd st msg = Return (out, st') →
  loop session sd st (msg :: rest)
  = {| yields := out ++ yields (loop session sd st' rest);
       raised := raised (loop session sd st' rest) |}.
Proof. intros H. simpl. by rewrite H. Qed.

Lemma loop_cons_raise session sd st msg rest e :
  loop_body session sd st msg = Raise e →
  loop session sd st (msg :: rest) = {| yields := []; raised := Some e |}.
Proof. intros H. simpl. by rewrite H. Qed.

Lemma loop_nil session sd st :
  loop session sd st []
  = {| yields :=
         match current_chunk st with
         | [] => []
         | _ :: _ => [(current_chunk st,
                       make_chunk session sd (cur_index st) (current_chunk st))]
         end;
       raised := None |}.
Proof. done. Qed.

(** What one run of the loop yields, from any state: the buffers add up
    to a prefix of the current buffer followed by the remaining messages,
    and to all of them when the run ends without an exception; the indices
    count up from the current index; and every chunk is built from its
    buffer. *)
Lemma loop_trace session sd messages : ∀ st,
  concat (fst <$> yields (loop session sd st messages))
    `prefix_of` current_chunk st ++ messages
  ∧ (raised (loop session sd st messages) = None →
     concat (fst <$> yields (loop session sd st messages))
     = current_chunk st ++ messages)
  ∧ (chunk_index ∘ snd) <$> yields (loop session sd st messages)
    = seq (cur_index st) (length (yields (loop session sd st messages)))
  ∧ Forall (λ bc, bc.2 = make_chunk session sd (chunk_index bc.2) bc.1)
      (yields (loop session sd st messages)).
Proof.
  induction messages as [|msg rest IH]; intros st.
  - rewrite loop_nil. cbn [yields raised].
    destruct (current_chunk st) as [|m buf] eqn:E.
    { split; [done|]. split; [done|]. split; [done|constructor]. }
    cbn [fmap list_fmap concat compose snd fst length seq].
    rewrite !app_nil_r, make_chunk_index.
    split; [done|]. split; [done|]. split; [done|].
    constructor; [|constructor]. simpl. by rewrite make_chunk_index.
  - destruct (loop_body_cases session sd st msg)
      as [(e & Hb & _)|[[Hb _]|(Hb & Hne & _)]].
    + rewrite (loop_cons_raise _ _ _ _ _ _ Hb). cbn [yields raised].
      split; [apply prefix_nil|]. split; [done|]. split; [done|constructor].
    + rewrite (loop_cons_return _ _ _ _ _ _ _ Hb). cbn [yields raised].
      match goal with
      | |- context [loop _ _ ?s rest] => destruct (IH s) as (Hp & Hc & Hi & Hf)
      end.
      cbn [current_chunk cur_index app] in *.
      rewrite <-(assoc_L (++)) in Hp, Hc. done.
    + rewrite (loop_cons_return _ _ _ _ _ _ _ Hb). cbn [yields raised].
      match goal with
      | |- context [loop _ _ ?s rest] => destruct (IH s) as (Hp & Hc & Hi & Hf)
      end.
      cbn [current_chunk cur_index] in *.
      rewrite !fmap_app, concat_app, length_app, Hi.
      cbn [fmap list_fmap concat compose snd fst length seq app].
      rewrite app_nil_r, make_chunk_index.
      split; [by apply prefix_app|].
      split; [intros Hr; by rewrite Hc|]. split; [done|].
      constructor; [|done]. simpl. by rewrite make_chunk_index.
Qed.


(** *** Bounds *)

Lemma sum_chars_app buf1 buf2 :
  sum_chars (buf1 ++ buf2) = (sum_chars buf1 + sum_chars buf2)%Z.
Proof.
  induction buf1 as [|m buf1 IH]; simpl; [done|]. rewrite IH. lia.
Qed.

Lemma msg_chars_line m :
  msg_chars m = (Z.of_nat (length (format_line m)) + 1)%Z.
Proof. unfold msg_chars. rewrite length_app. simpl. lia. Qed.

(** The text of a chunk is one character shorter than what the loop
    counted: the last line has no newline. *)
Lemma text_length buf :
  buf ≠ [] →
  Z.of_nat (length (format_chunk_text buf)) = (sum_chars buf - 1)%Z.
Proof.
  unfold format_chunk_text.
  induction buf as [|m buf IH]; [done|]. intros _.
  destruct buf as [|m' buf].
  - simpl. rewrite msg_chars_line. lia.
  - change (format_line <$> m :: m' :: buf)
      with (format_line m :: (format_line <$> m' :: buf)).
    change (join [10%N] (format_line m :: (format_line <$> m' :: buf)))
      with (format_line m ++ [10%N] ++ join [10%N] (format_line <$> m' :: buf)).
    rewrite !length_app, !Nat2Z.inj_add, IH by done.
    change (sum_chars (m :: m' :: buf))
      with (msg_chars m + sum_chars (m' :: buf))%Z.
    rewrite msg_chars_line. simpl length. lia.
Qed.

Lemma no_split_snoc sd buf msg :
  no_split sd buf →
  (∀ prev, last buf = Some prev → should_split prev msg sd = Return false) →
  no_split sd (buf ++ [msg]).
Proof.
  induction buf as [|m1 buf IH]; intros Hn Hl; [done|].
  destruct buf as [|m2 buf].
  - simpl. split; [|done]. by apply Hl.
  - destruct Hn as [H12 Hn]. split; [done|]. apply IH; [done|].
    intros prev Hp. apply Hl. done.
Qed.

Lemma no_split_adjacent sd pre m1 m2 post :
  no_split sd (pre ++ m1 :: m2 :: post) →
  should_split m1 m2 sd = Return false.
Proof.
  induction pre as [|m pre IH]; intros Hn.
  - by destruct Hn.
  - apply IH. destruct pre; simpl in Hn; by destruct Hn.
Qed.

Lemma buffer_ok_single sd m : buffer_ok sd [m].
Proof.
  split; [unfold MAX_MESSAGES_PER_CHUNK; simpl; lia|]. split; [|done].
  destruct (Z_le_gt_dec (msg_chars m) MAX_CHARS_PER_CHUNK).
  - left. simpl. lia.
  - right. exists m. split; [done|lia].
Qed.

(** What [should_start_new] returns, when it returns. *)
Lemma should_start_new_Return sd st msg b :
  should_start_new sd st msg = Return b →
  ∃ gap,
    match last (current_chunk st) with
    | Some prev => should_split prev msg sd = Return gap
    | None => gap = false
    end
    ∧ b = gap
          || (MAX_MESSAGES_PER_CHUNK <=? length (current_chunk st))%nat
          || (MAX_CHARS_PER_CHUNK <? current_chars st + msg_chars msg)%Z.
Proof.
  unfold should_start_new.
  destruct (last (current_chunk st)) as [prev|].
  - destruct (should_split prev msg sd) as [gap|e]; [|done].
    intros [= <-]. by exists gap.
  - intros [= <-]. by exists false.
Qed.

Lemma should_start_new_false sd st msg :
  should_start_new sd st msg = Return false →
  (∀ prev, last (current_chunk st) = Some prev →
           should_split prev msg sd = Return false)
  ∧ (length (current_chunk st) < MAX_MESSAGES_PER_CHUNK)%nat
  ∧ (current_chars st + msg_chars msg ≤ MAX_CHARS_PER_CHUNK)%Z.
Proof.
  intros (gap & Hgap & Hs)%should_start_new_Return. symmetry in Hs.
  apply orb_false_elim in Hs as [Hs Hc].
  apply orb_false_elim in Hs as [-> Hn].
  split; [|split].
  - intros prev Hp. by rewrite Hp in Hgap.
  - apply Nat.leb_gt in Hn. lia.
  - apply Z.ltb_ge in Hc. lia.
Qed.

Lemma loop_body_ok session sd st msg out st' :
  state_ok sd st →
  loop_body session sd st msg = Return (out, st') →
  Forall (λ bc, bc.1 ≠ [] ∧ buffer_ok sd bc.1) out ∧ state_ok sd st'.
Proof.
  intros [Hchars Hok] Hb.
  destruct (loop_body_cases session sd st msg)
    as [(e & Hb' & _)|[[Hb' Hc]|(Hb' & Hne & _)]];
    rewrite Hb' in Hb; [done| |]; injection Hb as <- <-.
  - split; [constructor|]. split; cbn [current_chars current_chunk].
    + rewrite sum_chars_app, Hchars. simpl. lia.
    + destruct Hc as [Hnil|Hs].
      * rewrite Hnil. apply buffer_ok_single.
      * apply should_start_new_false in Hs as (Hsplit & Hlen & Hsum).
        destruct Hok as (_ & _ & Hns).
        split; [rewrite length_app; simpl; lia|]. split.
        -- left. rewrite sum_chars_app, <-Hchars. simpl. lia.
        -- by apply no_split_snoc.
  - split.
    + constructor; [|constructor]. done.
    + split; cbn [current_chars current_chunk]; [simpl; lia|].
      apply buffer_ok_single.
Qed.

Lemma loop_ok session sd messages : ∀ st,
  state_ok sd st →
  Forall (λ bc, bc.1 ≠ [] ∧ buffer_ok sd bc.1)
    (yields (loop session sd st messages)).
Proof.
  induction messages as [|msg rest IH]; intros st Hst.
  - rewrite loop_nil. cbn [yields].
    destruct (current_chunk st) as [|m buf] eqn:E; [constructor|].
    constructor; [|constructor]. simpl. split; [done|].
    destruct Hst as [_ Hok]. by rewrite E in Hok.
  - destruct (loop_body session sd st msg) as [[out st']|e] eqn:Hb.
    + rewrite (loop_cons_return _ _ _ _ _ _ _ Hb). cbn [yields].
      destruct (loop_body_ok session sd st msg out st' Hst Hb) as [Hout Hst'].
      apply Forall_app. split; [done|]. by apply IH.
    + rewrite (loop_cons_raise _ _ _ _ _ _ Hb). constructor.
Qed.

Lemma initial_state_ok sd : state_ok sd initial_state.
Proof.
  split; [done|]. split; [simpl; lia|]. split; [|done].
  left. unfold MAX_CHARS_PER_CHUNK. simpl. lia.
Qed.

(** The gap the code takes is the gap of the rollover rule, when the next
    day exists. *)
Lemma gap_after_Return p q gap :
  gap_after p q = Return gap → gap = rollover_gap p q.
Proof.
  unfold gap_after, rollover_gap, Calendar.add_one_day.
  destruct (Calendar.lt q p); [|by intros [= <-]].
  destruct (Calendar.MAXYEAR <? _)%Z; [done|]. by intros [= <-].
Qed.

(** C2, as the code has it.  Every chunk of [chunk_session] holds at most
    20 messages; its text has at most 8000 characters unless the chunk is
    a single message whose own line is over the budget; and between two
    neighbouring messages of one chunk whose times both parse, the gap
    under the day rollover rule is at most 30 minutes. *)
Theorem chunk_session_bounds (session : SessionDict) (buf : list Message)
    (c : Chunk) :
  (buf, c) ∈ chunk_session_trace session →
  (message_count c ≤ MAX_MESSAGES_PER_CHUNK)%nat
  ∧ ((Z.of_nat (length (text c)) ≤ MAX_CHARS_PER_CHUNK)%Z
     ∨ ∃ m, buf = [m] ∧ (MAX_CHARS_PER_CHUNK < msg_chars m)%Z)
  ∧ ∀ pre m1 m2 post p q,
      buf = pre ++ m1 :: m2 :: post →
      parse_time (Msg.time m1) (session_date_of session) = Return (Some p) →
      parse_time (Msg.time m2) (session_date_of session) = Return (Some q) →
      (rollover_gap p q ≤ Calendar.timedelta 0 TIME_GAP_MINUTES)%Z.
Proof.
  unfold chunk_session_trace, chunk_session_run. intros Hin.
  destruct (s_messages session) as [|m ms] eqn:E; [by apply elem_of_nil in Hin|].
  set (sd := session_date_of session) in *.
  destruct (loop_trace session sd (m :: ms) initial_state) as (_ & _ & _ & Hf).
  pose proof (loop_ok session sd (m :: ms) initial_state (initial_state_ok sd))
    as Hok.
  rewrite Forall_forall in Hf, Hok.
  specialize (Hf _ Hin). destruct (Hok _ Hin) as (Hne & Hlen & Hsum & Hns).
  simpl in *. rewrite Hf, make_chunk_count, make_chunk_text.
  split; [done|]. split.
  - destruct Hsum as [Hsum|Hone]; [left|by right].
    rewrite text_length by done. lia.
  - intros pre m1 m2 post p q -> Hp Hq.
    apply no_split_adjacent in Hns. unfold should_split in Hns.
    rewrite Hp, Hq in Hns. cbn [mbind raises_bind] in Hns.
    destruct (gap_after p q) as [gap|e] eqn:Hg; [|done].
    apply gap_after_Return in Hg as ->.
    injection Hns as Hns. apply Z.ltb_ge in Hns. exact Hns.
Qed.

End ChunkerFacts.

(** *** The time gap *)

Section TimeGap.
Context {rt : Runtime}.
Import Chunker Spec Examples.
Local Open Scope Z_scope.

Lemma replace_hm_Some d h m p :
  Calendar.replace_hm d h m = Return (Some p) →
  0 <= h <= 23 ∧ 0 <= m <= 59
  ∧ p = {| dt_year := dt_year d; dt_month := dt_month d; dt_day := dt_day d;
           dt_hour := h; dt_minute := m; dt_second := dt_second d;
           dt_microsecond := dt_microsecond d |}.
Proof.
  unfold Calendar.replace_hm.
  destruct (negb _); [done|].
  destruct (Z.leb_spec 0 h), (Z.leb_spec h 23), (Z.leb_spec 0 m),
    (Z.leb_spec m 59); simpl; intros [= <-]; repeat split; lia.
Qed.

(** A time that parses is the session date with the hour and the minute
    replaced. *)
Lemma parse_time_Some t sd p :
  parse_time t sd = Return (Some p) →
  ∃ d h m, sd = Some d ∧ Calendar.replace_hm d h m = Return (Some p).
Proof.
  unfold parse_time. destruct t as [|c t]; [done|].
  destruct sd as [d|]; [|done].
  destruct (py_int <$> split_on (chr ":") (c :: t)) as [|[h|] [|[m|] [|? ?]]];
    try done.
  intros Hp. by exists d, h, m.
Qed.

(** Without a session date no time parses, and nothing is raised. *)
Lemma parse_time_no_date t : parse_time t None = Return None.
Proof. unfold parse_time. by destruct t. Qed.

Lemma should_split_no_date prev curr :
  should_split prev curr None = Return false.
Proof. unfold should_split. by rewrite !parse_time_no_date. Qed.

Lemma lt_same_day d hp mp p hq mq q :
  Calendar.replace_hm d hp mp = Return (Some p) →
  Calendar.replace_hm d hq mq = Return (Some q) →
  Calendar.lt q p = (minute_of_day q <? minute_of_day p).
Proof.
  intros (Hhp & Hmp & ->)%replace_hm_Some (Hhq & Hmq & ->)%replace_hm_Some.
  unfold Calendar.lt, minute_of_day. cbn [dt_year dt_month dt_day dt_hour
    dt_minute dt_second dt_microsecond].
  rewrite !Z.ltb_irrefl, !Z.eqb_refl.
  destruct (Z.ltb_spec hq hp), (Z.eqb_spec hq hp), (Z.ltb_spec mq mp),
    (Z.eqb_spec mq mp), (Z.ltb_spec (hq * 60 + mq) (hp * 60 + mp)); lia.
Qed.

(** The gap of the rollover rule is the difference of the two times of
    day, counted forward around the clock. *)
Lemma rollover_gap_minutes d hp mp p hq mq q :
  Calendar.valid d →
  Calendar.replace_hm d hp mp = Return (Some p) →
  Calendar.replace_hm d hq mq = Return (Some q) →
  rollover_gap p q
  = Calendar.timedelta 0 ((minute_of_day q - minute_of_day p) mod 1440).
Proof.
  intros Hd Hp Hq. unfold rollover_gap.
  rewrite (lt_same_day d hp mp p hq mq q Hp Hq).
  apply replace_hm_Some in Hp as (Hhp & Hmp & ->).
  apply replace_hm_Some in Hq as (Hhq & Hmq & ->).
  unfold minute_of_day. cbn [dt_hour dt_minute].
  destruct (Z.ltb_spec (hq * 60 + mq) (hp * 60 + mp)) as [Hlt|Hge].
  - unfold Calendar.sub. rewrite toordinal_next_day.
    2:{ destruct Hd as (? & ? & ? & ? & ? & ? & ?). repeat split; simpl; lia. }
    unfold Calendar.toordinal, Calendar.micros_of_day, Calendar.next_day,
      Calendar.timedelta.
    cbn [dt_year dt_month dt_day dt_hour dt_minute dt_second dt_microsecond].
    replace ((hq * 60 + mq - (hp * 60 + mp)) mod 1440)
      with (hq * 60 + mq - (hp * 60 + mp) + 1440)
      by (apply Z.mod_unique with (q := -1); lia).
    destruct (dt_day d <? Calendar.days_in_month (dt_year d) (dt_month d));
      [|destruct (dt_month d <? 12)]; cbn; lia.
  - unfold Calendar.sub, Calendar.toordinal, Calendar.micros_of_day,
      Calendar.timedelta.
    cbn [dt_year dt_month dt_day dt_hour dt_minute dt_second dt_microsecond].
    rewrite Z.mod_small by lia. lia.
Qed.

(** Before year 9999 every day has a next day. *)
Lemma add_one_day_Return (d : datetime) :
  Calendar.valid d → dt_year d < Calendar.MAXYEAR →
  Calendar.add_one_day d = Return (Calendar.next_day d).
Proof.
  intros Hd Hy. unfold Calendar.add_one_day.
  assert (dt_year (Calendar.next_day d) <= Calendar.MAXYEAR) as Hn.
  { unfold Calendar.next_day.
    destruct (dt_day d <? _); [|destruct (dt_month d <? 12)]; simpl; lia. }
  by destruct (Z.ltb_spec Calendar.MAXYEAR (dt_year (Calendar.next_day d)));
    [lia|].
Qed.

(** Under a session date before year 9999, the gap test on two times that
    parse returns, and compares 30 minutes with the gap of the rollover
    rule. *)
Lemma should_split_Return d prev curr p q :
  Calendar.valid d → dt_year d < Calendar.MAXYEAR →
  parse_time (Msg.time prev) (Some d) = Return (Some p) →
  parse_time (Msg.time curr) (Some d) = Return (Some q) →
  should_split prev curr (Some d)
  = Return (Calendar.timedelta 0 TIME_GAP_MINUTES <? rollover_gap p q).
Proof.
  intros Hd Hy Hp Hq. unfold should_split. rewrite Hp, Hq.
  cbn [mbind raises_bind]. unfold gap_after, rollover_gap.
  destruct (Calendar.lt q p); [|done].
  destruct (parse_time_Some _ _ _ Hq) as (d' & hq & mq & [= <-] & Hrq).
  apply replace_hm_Some in Hrq as (? & ? & ->).
  rewrite add_one_day_Return; [done| |done].
  destruct Hd as (? & ? & ? & ? & ? & ? & ?). repeat split; simpl; lia.
Qed.

(** C4. On the last day of year 9999 the rollover has no next day to
    move the later message to: for 23:55 followed by 00:10 the addition of
    one day raises [OverflowError], which [should_split] does not catch,
    where on 2003-12-09 the same two messages are 15 minutes apart and are
    not split. *)
Theorem should_split_last_day :
  Calendar.valid dec_31_9999
  ∧ (∃ p q,
       parse_time (lit "23:55") (Some dec_31_9999) = Return (Some p)
       ∧ parse_time (lit "00:10") (Some dec_31_9999) = Return (Some q)
       ∧ Calendar.lt q p = true
       ∧ Calendar.add_one_day q = Raise OverflowError)
  ∧ should_split (short "23:55") (short "00:10") (Some dec_31_9999)
    = Raise OverflowError
  ∧ (∃ p q,
       parse_time (lit "23:55") (Some dec_9_2003) = Return (Some p)
       ∧ parse_time (lit "00:10") (Some dec_9_2003) = Return (Some q)
       ∧ gap_after p q = Return (Calendar.timedelta 0 15))
  ∧ should_split (short "23:55") (short "00:10") (Some dec_9_2003)
    = Return false.
Proof.
  split; [repeat split; vm_compute; congruence|].
  split; [eexists _, _; repeat split; vm_compute; reflexivity|].
  split; [vm_compute; reflexivity|].
  split; [eexists _, _; repeat split; vm_compute; reflexivity|].
  vm_compute; reflexivity.
Qed.

(** C5. A time whose hour is beyond a C [int] does not parse, and is not
    passed over either: [replace] raises [OverflowError], the handler of
    [parse_time] catches [ValueError] and [AttributeError] only, and
    [should_split] ends with the exception where a time such as "25:99",
    or a missing session date, gives no split. *)
Theorem should_split_overflow :
  parse_time (lit "4294967296:00") (Some dec_9_2003) = Raise OverflowError
  ∧ should_split late (short "18:30") (Some dec_9_2003) = Raise OverflowError
  ∧ should_split (short "18:30") late (Some dec_9_2003) = Raise OverflowError
  ∧ parse_time (lit "25:99") (Some dec_9_2003) = Return None
  ∧ should_split (message (lit "25:99") (lit "a") (lit "x") false)
      (short "18:30") (Some dec_9_2003) = Return false
  ∧ should_split late (short "18:30") None = Return false.
Proof. repeat split; vm_compute; reflexivity. Qed.

End TimeGap.

(** *** [process_sessions] *)

Section ProcessSessions.
Context {rt : Runtime}.
Import Chunker Spec Examples.







End ProcessSessions.

(** *** Examples of the chunker *)

Section ChunkerExamples.
Import Chunker Spec Examples.

(** C1. The session of 9999-12-31 with messages at 23:55 and 00:10 has
    two messages, and [chunk_session] yields no chunk for it: the gap test
    on the second message raises [OverflowError] and ends the generator.
    So does the gap test on a message whose hour is beyond a C [int]. *)
Theorem chunk_session_last_day :
  s_messages overnight_9999 = [short "23:55"; short "00:10"]
  ∧ session_date_of (rt:=Small.runtime) overnight_9999 = Some dec_31_9999
  ∧ chunk_session_run (rt:=Small.runtime) overnight_9999
    = {| yields := []; raised := Some OverflowError |}
  ∧ concat (chunk_buffers (rt:=Small.runtime) overnight_9999)
    ≠ s_messages overnight_9999
  ∧ chunk_session_run (rt:=Small.runtime) late_session
    = {| yields := []; raised := Some OverflowError |}.
Proof. repeat split; vm_compute; congruence. Qed.

(** C2 fails as stated: a session of one message with a text of 8000
    characters is yielded as one chunk whose text has 8003 characters. *)
Lemma oversized_chunk_text :
  (λ c, (message_count c, Z.of_nat (length (text c))))
    <$> chunk_session (rt:=Small.runtime) oversized
  = [(1%nat, 8003%Z)].
Proof. vm_compute. reflexivity. Qed.

(** The overnight session is one chunk of two messages, within the
    bounds. *)
Lemma chunk_session_bounds_overnight :
  (overnight_buffer,
   make_chunk overnight (Some dec_9_2003) 0 overnight_buffer)
    ∈ chunk_session_trace (rt:=Small.runtime) overnight
  ∧ (Z.of_nat (length (text (make_chunk overnight
                              (Some dec_9_2003) 0 overnight_buffer)))
     ≤ MAX_CHARS_PER_CHUNK)%Z.
Proof.
  assert ((overnight_buffer,
           make_chunk overnight (Some dec_9_2003) 0
             overnight_buffer)
            ∈ chunk_session_trace (rt:=Small.runtime) overnight) as Hin
    by (vm_compute; constructor).
  split; [exact Hin|].
  destruct (chunk_session_bounds (rt:=Small.runtime) _ _ _ Hin)
    as (_ & [Hlen|(m & [=] & _)] & _).
  exact Hlen.
Defined.

Lemma dec_9_2003_valid : Calendar.valid dec_9_2003.
Proof. repeat split; vm_compute; congruence. Qed.

End ChunkerExamples.

(** ** The parser *)

Section StringFacts.

Lemma drop_while_snoc (p : N → bool) (s : str) (c : N) :
  p c = false → drop_while p (s ++ [c]) = drop_while p s ++ [c].
Proof.
  intros Hc. induction s as [|x s IH]; simpl.
  - by rewrite Hc.
  - destruct (p x); [exact IH|done].
Qed.

Lemma drop_while_end_cons (p : N → bool) (c : N) (s : str) :
  p c = false → drop_while_end p (c :: s) = c :: drop_while_end p s.
Proof.
  intros Hc. unfold drop_while_end.
  rewrite reverse_cons, drop_while_snoc, reverse_app by done. done.
Qed.

Lemma ltb_succ (p : nat) : (p <? S p)%nat = true.
Proof. apply Nat.ltb_lt. lia. Qed.

Lemma ltb_plus_succ (p n : nat) : (p <? p + S n)%nat = true.
Proof. apply Nat.ltb_lt. lia. Qed.

End StringFacts.

Section NoiseFacts.
Context {rt : Runtime}.
Import Re Parser.

Lemma char_eq_exact (p c : N) : char_eq false p c = (p =? c)%N.
Proof. unfold char_eq. simpl. by rewrite orb_false_r. Qed.

Lemma sub_cons_keep icase r c s :
  match_at icase r 0 (c :: s) = None →
  sub icase r (c :: s) = c :: sub_from (length s) icase r 1 s.
Proof. unfold sub. simpl. by intros ->. Qed.

(** A line that opens with the letter S keeps it through
    [strip_mirc_codes]. *)
Lemma strip_mirc_codes_S (t : str) :
  ∃ t', strip_mirc_codes (83%N :: t) = 83%N :: t'.
Proof.
  unfold strip_mirc_codes.
  rewrite sub_cons_keep by reflexivity.
  set (t1 := sub_from _ _ _ _ _).
  cbn [foldl]. unfold remove_char.
  do 6 (rewrite filter_cons_True by done).
  set (t2 := filter _ _).
  rewrite sub_cons_keep by reflexivity.
  set (t3 := sub_from _ _ _ _ _).
  unfold strip, lstrip, rstrip. cbn [drop_while].
  change (isspace 83) with false. cbv iota.
  rewrite drop_while_end_cons by reflexivity. eauto.
Qed.

(** No noise pattern matches a line that opens with the letter S. *)
Lemma noise_patterns_S (t : str) :
  Forall (λ p, match_ p.1 p.2 (83%N :: t) = None) NOISE_PATTERNS.
Proof. repeat constructor; vm_compute; by destruct t. Qed.

Lemma not_noise_S (t : str) (s : str) :
  strip_mirc_codes s = 83%N :: t → is_noise_line s = false.
Proof.
  intros Hs. unfold is_noise_line. rewrite Hs.
  apply not_true_is_false. intros (p & Hp & Hm)%existsb_exists.
  pose proof (noise_patterns_S t) as Hf.
  rewrite Forall_forall in Hf. apply list_elem_of_In in Hp.
  rewrite (Hf _ Hp) in Hm. by case_bool_decide as Hb; [destruct Hb|].
Qed.

(** The three session markers open with the letter S. *)
Lemma marker_head (r1 r2 : regex) (s : str) (g : captures) :
  match_ false (Seq Bol (Seq (Seq (Atom (Lit 83)) r1) r2)) s = Some g →
  ∃ t, s = 83%N :: t.
Proof.
  unfold match_. simpl. destruct s as [|c t]; [done|].
  rewrite char_eq_exact. destruct (N.eqb_spec 83 c) as [<-|]; [eauto|done].
Qed.

(** A noise line is none of the three session markers. *)
Lemma noise_is_no_marker (line : str) :
  is_noise_line line = true →
  match_ false SESSION_START_PATTERN line = None
  ∧ match_ false SESSION_CLOSE_PATTERN line = None
  ∧ match_ false SESSION_IDENT_PATTERN line = None.
Proof.
  intros Hn.
  assert (∀ r1 r2,
            match_ false (Seq Bol (Seq (Seq (Atom (Lit 83)) r1) r2)) line = None)
    as Hno.
  { intros r1 r2.
    destruct (match_ false _ line) as [g|] eqn:Hm; [|done].
    apply marker_head in Hm as [t ->].
    destruct (strip_mirc_codes_S t) as [t' Ht'].
    by rewrite (not_noise_S t' _ Ht') in Hn. }
  repeat split; apply Hno.
Qed.

(** While a session is open (and at any other time), a line that
    [is_noise_line] accepts is dropped before the message patterns are
    tried: the iteration yields nothing and leaves the state as it was,
    so the line adds no message and no participant, and the open session
    is neither closed nor replaced. *)
Lemma noise_line_ignored (fi : file_info) (st : state) (line : str) :
  is_noise_line (rstrip_chars [10; 13]%N line) = true →
  process_line fi st line = ([], st)
  ∧ current_session (process_line fi st line).2 = current_session st
  ∧ participants_set (process_line fi st line).2 = participants_set st.
Proof.
  intros Hn.
  assert (process_line fi st line = ([], st)) as Hp.
  { unfold process_line.
    destruct (noise_is_no_marker _ Hn) as (-> & -> & ->).
    destruct (current_session st); [|done]. by rewrite Hn. }
  by rewrite Hp.
Qed.

End NoiseFacts.

Section SortedSet.

Lemma str_le_total : Total str_le.
Proof.
  intros a. induction a as [|x a IH]; intros [|y b]; unfold str_le; simpl;
    try (by left); try (by right).
  destruct (N.ltb_spec x y), (N.ltb_spec y x), (N.eqb_spec x y),
    (N.eqb_spec y x); try lia; try (by left); try (by right).
  apply IH.
Qed.

(** [sorted(...)] of a set: in order, without repetition, and with the
    elements of the set. *)
Lemma sorted_elements (X : gset str) :
  Sorted str_le (merge_sort str_le (elements X))
  ∧ NoDup (merge_sort str_le (elements X))
  ∧ ∀ x, x ∈ merge_sort str_le (elements X) ↔ x ∈ X.
Proof.
  split; [apply (Sorted_merge_sort str_le (Total0:=str_le_total))|]. split.
  - rewrite merge_sort_Permutation. apply NoDup_elements.
  - intros x. rewrite merge_sort_Permutation. apply elem_of_elements.
Qed.

End SortedSet.

Section SessionBuilder.
Context {rt : Runtime}.
Import Re Parser Spec.





End SessionBuilder.

Section ParseLogFile.
Context {rt : Runtime}.
Import Re Parser Spec Examples.



(** C3. [parse_log_file] parses what the first encoding, utf-8, reads,
    whatever the other encodings would read, and prints no warning: a
    file that cannot be read ends with the error message.  A cp1252 file
    with the byte E9 is parsed with U+FFFD in its place, not with the
    U+00E9 that cp1252 reads. *)
Theorem parse_log_file_first_encoding (fs : filesystem) (filepath : str) :
  parse_log_file fs filepath
  = match fs filepath utf_8 with
    | ReadOk text =>
        {| sessions := parse_lines (file_info_of filepath) initial_state
                         (readlines text);
           stderr := [] |}
    | OSError => {| sessions := []; stderr := [Error_parsing] |}
    end
  ∧ cafe_file filepath cp1252 = ReadOk (cafe_lines 233)
  ∧ messages <$> sessions (parse_log_file cafe_file filepath)
    = [[message (lit "18:30") (lit "alice") (lit "caf" ++ [65533%N]) false]]
  ∧ messages
      <$> parse_lines (file_info_of filepath) initial_state
            (readlines (cafe_lines 233))
    = [[message (lit "18:30") (lit "alice") (lit "caf" ++ [233%N]) false]].
Proof.
  split; [|split; [done|split]].
  - unfold parse_log_file, ENCODINGS, read_content.
    by destruct (fs filepath utf_8).
  - vm_compute. reflexivity.
  - vm_compute. reflexivity.
Qed.

(** C7. A file of the four lines, read as UTF-8, yields one session: the
    participants are alice and bob, the messages are the two message
    lines in order, the first from another user and the second from the
    owner of the log, and the start and end times are what
    [parse_datetime] makes of the two marker lines. *)
Theorem parse_four_lines (fs : filesystem) (filepath : str)
    (final_newline : bool) :
  fs filepath utf_8 = ReadOk (four_lines final_newline) →
  parse_log_file fs filepath
  = {| sessions :=
         [ {| session_id := path_stem filepath ++ lit "_0001";
              source_file := filepath;
              channel := fi_channel (file_info_of filepath);
              target_nick := fi_target_nick (file_info_of filepath);
              start_time := parse_datetime (lit "Tue Dec 09 18:27:34 2003");
              end_time := parse_datetime (lit "Tue Dec 09 19:06:00 2003");
              participants := [lit "alice"; lit "bob"];
              messages :=
                [ message (lit "18:30") (lit "alice") (lit "hello") false;
                  message (lit "19:05") (lit "bob") (lit "hi there") true ];
              network := fi_network (file_info_of filepath) |} ];
       stderr := [] |}.
Proof.
  intros Hfs. unfold parse_log_file, ENCODINGS. cbn [read_content].
  rewrite Hfs. destruct final_newline; vm_compute; reflexivity.
Qed.

(** C8. A join announcement with the round bullet matches the first
    noise pattern as it stands in the file, but [is_noise_line] tests the
    line after [strip_mirc_codes], which deletes the bullet with the
    decorative glyphs: the line passes for no noise, matches the message
    pattern, and is stored as a message of carol, who joins the
    participants. *)
Theorem bullet_join_kept (fi : file_info) :
  (∃ p, NOISE_PATTERNS !! 0%nat = Some p
        ∧ is_Some (match_ p.1 p.2 bullet_join))
  ∧ 9679%N ∈ BULLETS ∧ 9679%N ∈ DECORATION_CHARS
  ∧ strip_mirc_codes bullet_join = lit "[18:31] [carol]  joins #chat"
  ∧ is_noise_line bullet_join = false
  ∧ (participants <$> parse_lines fi initial_state (readlines bullet_log)
     = [[lit "alice"; lit "carol"]]
     ∧ messages <$> parse_lines fi initial_state (readlines bullet_log)
       = [[message (lit "18:30") (lit "alice") (lit "hello") false;
           message (lit "18:31") (lit "carol") (lit "joins #chat") false]]).
Proof.
  split; [eexists; split; [reflexivity|vm_compute; eauto]|].
  split; [vm_compute; by repeat constructor|].
  split; [unfold DECORATION_CHARS; rewrite !elem_of_cons; tauto|].
  split; [vm_compute; reflexivity|].
  split; [vm_compute; reflexivity|].
  split; vm_compute; reflexivity.
Qed.

End ParseLogFile.

(** *** Examples of the parser *)

Section ParserExamples.
Import Re Parser Spec Examples.

(** The four lines in the log of a conversation with alice. *)
Lemma parse_four_lines_dm :
  one_file (four_lines true) (lit "logs/alice.EFnet.log") utf_8
  = ReadOk (four_lines true)
  ∧ (λ s, (session_id s, target_nick s, start_time s, length (messages s)))
      <$> sessions (parse_log_file (rt:=Small.runtime)
                      (one_file (four_lines true)) (lit "logs/alice.EFnet.log"))
    = [(lit "alice.EFnet_0001", Some (lit "alice"), Some dec_9_2003, 2)].
Proof.
  split; [reflexivity|].
  rewrite (parse_four_lines (rt:=Small.runtime) (one_file (four_lines true))
             (lit "logs/alice.EFnet.log") true eq_refl).
  vm_compute. reflexivity.
Defined.

(** A join announcement with a star in the shape of a message line is
    noise, would match the message pattern, and changes nothing. *)
Lemma star_join_ignored :
  is_noise_line (rt:=Small.runtime) (rstrip_chars [10; 13]%N join_line) = true
  ∧ is_Some (match_ (rt:=Small.runtime) false OTHER_USER_MSG_PATTERN
               (strip_mirc_codes (rt:=Small.runtime)
                  (rstrip_chars [10; 13]%N join_line)))
  ∧ process_line (rt:=Small.runtime) dm_file one_message_state join_line
    = ([], one_message_state).
Proof.
  assert (is_noise_line (rt:=Small.runtime)
            (rstrip_chars [10; 13]%N join_line) = true) as Hn
    by (vm_compute; reflexivity).
  split; [exact Hn|]. split; [vm_compute; eauto|].
  exact (proj1 (noise_line_ignored (rt:=Small.runtime) dm_file
                  one_message_state join_line Hn)).
Qed.

End ParserExamples.

(** *** The text normalizer *)

Section Normalizer.
Context {rt : Runtime}.
Import Re Parser Spec.


(** A greedy repetition of a body that reads one character of the class
    [p] fails when the run is too short, and goes on with the whole run
    when the rest of the match succeeds there. *)
Lemma rep_class {A} (p : N → bool)
    (body : nat → str → captures → cont A → option A) (k : cont A) :
  (∀ pos s g k',
     body pos s g k'
     = match s with
       | c :: s' => if p c then k' (S pos) s' g else None
       | [] => None
       end) →
  ∀ fuel lo hi pos s g,
  length s < fuel →
  (bounded hi (run_length p s) < lo →
   rep body k fuel lo hi pos s g = None)
  ∧ (∀ x,
       lo ≤ bounded hi (run_length p s) →
       k (pos + bounded hi (run_length p s))
         (drop (bounded hi (run_length p s)) s) g = Some x →
       rep body k fuel lo hi pos s g = Some x).
Proof.
  intros Hbody.
  induction fuel as [|fuel IH]; intros lo hi pos s g Hfuel; [lia|].
  assert ((0 < lo → match lo with O => k pos s g | S _ => None end = None)
          ∧ (∀ y, lo ≤ 0 → k (pos + 0) (drop 0 s) g = Some y →
                  match lo with O => k pos s g | S _ => None end = Some y))
    as Hstop.
  { split; [destruct lo; [lia|done]|].
    intros y Hlo. destruct lo; [|lia]. by rewrite Nat.add_0_r. }
  cbn [rep]. rewrite Hbody.
  destruct hi as [[|h]|]; [exact Hstop|..];
    (destruct s as [|c s]; [exact Hstop|]);
    cbn [run_length bounded fmap option_fmap option_map pred];
    (destruct (p c) eqn:Hc; [|exact Hstop]);
    rewrite ltb_succ.
  - destruct (IH (pred lo) (Some h) (S pos) s g ltac:(simpl in Hfuel; lia))
      as [Hnone Hsome].
    cbn [bounded] in Hnone, Hsome.
    rewrite <-Nat.succ_min_distr. split.
    + intros Hlt. rewrite Hnone by lia. destruct lo; [lia|done].
    + intros x Hle Hk. rewrite Nat.add_succ_r in Hk.
      by rewrite (Hsome x) by (done || lia).
  - destruct (IH (pred lo) None (S pos) s g ltac:(simpl in Hfuel; lia))
      as [Hnone Hsome].
    cbn [bounded] in Hnone, Hsome. split.
    + intros Hlt. rewrite Hnone by lia. destruct lo; [lia|done].
    + intros x Hle Hk. rewrite Nat.add_succ_r in Hk.
      by rewrite (Hsome x) by (done || lia).
Qed.

Lemma run_seq {A} icase r1 r2 pos s g (k : cont A) :
  run icase (Seq r1 r2) pos s g k
  = run icase r1 pos s g (λ pos' s' g', run icase r2 pos' s' g' k).
Proof. done. Qed.

Lemma run_group {A} icase n r pos s g (k : cont A) :
  run icase (Group n r) pos s g k
  = run icase r pos s g
      (λ pos' s' g', k pos' s' ((n, take (pos' - pos) s) :: g')).
Proof. done. Qed.

Lemma run_atom {A} icase a pos s g (k : cont A) :
  run icase (Atom a) pos s g k
  = match s with
    | c :: s' => if atom_ok icase a c then k (S pos) s' g else None
    | [] => None
    end.
Proof. done. Qed.

(** An optional part: matched when the rest of the match succeeds after
    it, skipped otherwise. *)
Lemma run_opt {A} icase r pos s g (k : cont A) :
  run icase (opt r) pos s g k
  = match run icase r pos s g
            (λ pos' s' g',
               if (pos <? pos')%nat
               then match s with [] => None | _ :: _ => k pos' s' g' end
               else None) with
    | Some x => Some x
    | None => k pos s g
    end.
Proof. by destruct s. Qed.

Lemma run_rep_class {A} icase a lo hi pos s g (k : cont A) :
  (bounded hi (run_length (atom_ok icase a) s) < lo →
   run icase (Rep lo hi (Atom a)) pos s g k = None)
  ∧ (∀ x,
       lo ≤ bounded hi (run_length (atom_ok icase a) s) →
       k (pos + bounded hi (run_length (atom_ok icase a) s))
         (drop (bounded hi (run_length (atom_ok icase a) s)) s) g = Some x →
       run icase (Rep lo hi (Atom a)) pos s g k = Some x).
Proof.
  apply (rep_class (atom_ok icase a) (run icase (Atom a)) k); [done|].
  simpl. lia.
Qed.

Lemma digits12_bounded s :
  bounded (Some 2) (run_length (atom_ok false Digit) s) = digits12 s.
Proof.
  destruct s as [|c1 [|c2 s]]; simpl; [done|..];
    destruct (is_digit c1); try done; destruct (is_digit c2); done.
Qed.

Lemma digits12_nil s : s = [] → digits12 s = 0.
Proof. by intros ->. Qed.

(** One or two digits, then [k]. *)
Lemma run_digits12 {A} pos s g (k : cont A) :
  (digits12 s = 0 →
   run false (Rep 1 (Some 2) (Atom Digit)) pos s g k = None)
  ∧ (∀ x, 1 ≤ digits12 s →
          k (pos + digits12 s) (drop (digits12 s) s) g = Some x →
          run false (Rep 1 (Some 2) (Atom Digit)) pos s g k = Some x).
Proof.
  destruct (run_rep_class false Digit 1 (Some 2) pos s g k) as [Hn Hs].
  rewrite digits12_bounded in Hn, Hs. split; [intros; apply Hn; lia|done].
Qed.

(** The rest of the subject after a match of the color pattern. *)
Lemma color_match (pos : nat) (c : N) (s : str) :
  match_at false MIRC_COLOR_PATTERN pos (c :: s)
  = match color_code (c :: s) with
    | Some n => Some (pos + S n, drop n s)
    | None => None
    end.
Proof.
  unfold match_at, MIRC_COLOR_PATTERN, color_code.
  rewrite run_seq, run_atom. cbn [atom_ok].
  rewrite char_eq_exact, N.eqb_sym.
  destruct (c =? 3)%N; [|done].
  rewrite run_opt, run_group, run_seq.
  unfold color_params.
  destruct (digits12 s) as [|n] eqn:Hd.
  { match goal with
    | |- context [run false (Rep 1 (Some 2) (Atom Digit)) ?p ?s ?g ?k] =>
        destruct (run_digits12 p s g k) as [Hrun _]; rewrite Hrun by done
    end.
    f_equal. f_equal. lia. }
  assert (s ≠ []) as Hs by (intros ->; done).
  match goal with
  | |- context [run false (Rep 1 (Some 2) (Atom Digit)) ?p ?s ?g ?k] =>
      destruct (run_digits12 p s g k) as [_ Hrun]
  end.
  rewrite Hd in Hrun.
  erewrite Hrun; [done|lia|]. clear Hrun.
  rewrite run_opt, run_group, run_seq, run_atom.
  destruct (drop (S n) s) as [|c' s2] eqn:Hdrop.
  { rewrite ltb_plus_succ, ?Hdrop. destruct s; [done|]. f_equal. f_equal. lia. }
  cbn [atom_ok]. rewrite char_eq_exact, N.eqb_sym.
  destruct (c' =? chr ",")%N.
  2:{ rewrite ltb_plus_succ, ?Hdrop. destruct s; [done|]. f_equal. f_equal. lia. }
  destruct (digits12 s2) as [|m] eqn:Hd2.
  { match goal with
    | |- context [run false (Rep 1 (Some 2) (Atom Digit)) ?p ?s ?g ?k] =>
        destruct (run_digits12 p s g k) as [Hrun _]; rewrite Hrun by done
    end.
    rewrite ltb_plus_succ, ?Hdrop. destruct s; [done|]. f_equal. f_equal. lia. }
  match goal with
  | |- context [run false (Rep 1 (Some 2) (Atom Digit)) ?p ?s ?g ?k] =>
      destruct (run_digits12 p s g k) as [_ Hrun]
  end.
  rewrite Hd2 in Hrun.
  erewrite Hrun; [done|lia|]. clear Hrun.
  replace (S pos + S n <? S (S pos + S n) + S m)%nat with true
    by (symmetry; apply Nat.ltb_lt; lia).
  replace (S pos <? S (S pos + S n) + S m)%nat with true
    by (symmetry; apply Nat.ltb_lt; lia).
  destruct s; [done|]. f_equal. f_equal; [lia|].
  replace (S n + 1 + S m) with (S n + S (S m)) by lia.
  rewrite <-drop_drop, Hdrop. done.
Qed.

(** The rest of the subject after a match of one or more characters of
    a class. *)
Lemma class_match icase a pos c s :
  match_at icase (plus (Atom a)) pos (c :: s)
  = if atom_ok icase a c
    then Some (pos + S (run_length (atom_ok icase a) s),
               drop (run_length (atom_ok icase a) s) s)
    else None.
Proof.
  unfold match_at, plus.
  match goal with
  | |- run _ _ _ _ ?g ?k = _ =>
      destruct (run_rep_class icase a 1 None pos (c :: s) g k) as [Hn Hs]
  end.
  cbn [bounded run_length] in Hn, Hs.
  destruct (atom_ok icase a c).
  - by rewrite (Hs _ ltac:(lia) eq_refl).
  - apply Hn. lia.
Qed.

Lemma scan_drop code s : ∀ n, scan code n s = scan code 0 (drop n s).
Proof.
  induction s as [|c s IH]; intros [|n]; try done. simpl. by rewrite IH.
Qed.

(** Deleting the matches of a pattern from the left is [scan] with the
    length of the match at each place. *)
Lemma sub_from_scan icase r (code : str → option nat) :
  (∀ pos c s,
     match_at icase r pos (c :: s)
     = match code (c :: s) with
       | Some n => Some (pos + S n, drop n s)
       | None => None
       end) →
  ∀ fuel pos s, length s ≤ fuel → sub_from fuel icase r pos s = scan code 0 s.
Proof.
  intros Hm. induction fuel as [|fuel IH]; intros pos [|c s] Hlen; try done.
  { simpl in Hlen. lia. }
  cbn [sub_from scan]. rewrite Hm.
  destruct (code (c :: s)) as [n|].
  - rewrite ltb_plus_succ, IH, <-scan_drop; [done|].
    rewrite length_drop. simpl in Hlen. lia.
  - rewrite IH; [done|]. simpl in Hlen. lia.
Qed.

Lemma sub_color s : sub false MIRC_COLOR_PATTERN s = scan color_code 0 s.
Proof. apply sub_from_scan; [apply color_match|done]. Qed.

(** A run of characters of a class is deleted as a whole, which deletes
    every character of the class. *)
Lemma scan_class (p : N → bool) s : ∀ n,
  n ≤ run_length p s →
  scan (λ s, match s with
             | c :: s' => if p c then Some (run_length p s') else None
             | [] => None
             end) n s
  = filter (λ c, p c = false) s.
Proof.
  induction s as [|c s IH]; intros n Hn; [done|].
  cbn [run_length] in Hn. cbn [scan].
  destruct (p c) eqn:Hc.
  - rewrite filter_cons_False by (rewrite Hc; done).
    destruct n as [|n]; apply IH; lia.
  - rewrite filter_cons_True by done.
    destruct n; [|lia]. by rewrite IH by lia.
Qed.

Lemma in_class cs c :
  atom_ok false (OneOf cs) c = false ↔ c ∉ cs.
Proof.
  cbn [atom_ok]. rewrite <-not_true_iff_false, existsb_exists.
  split.
  - intros Hn Hin. apply Hn. exists c.
    rewrite char_eq_exact, N.eqb_refl. by rewrite <-list_elem_of_In.
  - intros Hn (x & Hin & Hx). rewrite char_eq_exact in Hx.
    apply N.eqb_eq in Hx as ->. by rewrite <-list_elem_of_In in Hin.
Qed.

Lemma sub_decorations s :
  sub false MIRC_DECORATIONS s = filter (λ c, c ∉ DECORATION_CHARS) s.
Proof.
  unfold sub, MIRC_DECORATIONS.
  rewrite (sub_from_scan false _
             (λ s, match s with
                   | c :: s' =>
                       if atom_ok false (OneOf DECORATION_CHARS) c
                       then Some (run_length
                                    (atom_ok false (OneOf DECORATION_CHARS)) s')
                       else None
                   | [] => None
                   end)); [|intros pos c s'; rewrite class_match;
                            by destruct (atom_ok _ _ c)|done].
  rewrite scan_class by lia.
  apply list_filter_iff. intros c. apply in_class.
Qed.

Lemma remove_toggles s :
  foldl (λ text code, remove_char code text) s
    [MIRC_BOLD; MIRC_ITALIC; MIRC_UNDERLINE; MIRC_STRIKETHROUGH;
     MIRC_REVERSE; MIRC_RESET]
  = filter (λ c, c ∉ STYLE_TOGGLES) s.
Proof.
  cbn [foldl]. unfold remove_char. rewrite !list_filter_filter.
  apply list_filter_iff. intros c. unfold STYLE_TOGGLES.
  rewrite !not_elem_of_cons. pose proof (not_elem_of_nil c). tauto.
Qed.

(** C9, as the code has it.  [strip_mirc_codes] returns, for every input,
    the input without its color codes, style toggles and decorative
    glyphs, and then without the whitespace at both ends: the trimming is
    done here. *)
Theorem strip_mirc_codes_spec (s : str) :
  strip_mirc_codes s = strip (remove_codes s).
Proof.
  unfold strip_mirc_codes, remove_codes.
  rewrite sub_color, remove_toggles, sub_decorations, list_filter_filter.
  f_equal. apply list_filter_iff. intros c. tauto.
Qed.

End Normalizer.

Section NormalizerExamples.
Import Re Parser Spec.

(** C9 fails as stated: the whitespace at the ends of a line without any
    code is removed. *)
Lemma strip_mirc_codes_trims :
  remove_codes (rt:=Small.runtime) (lit " hi ") = lit " hi "
  ∧ strip_mirc_codes (rt:=Small.runtime) (lit " hi ") = lit "hi"
  ∧ strip_mirc_codes (rt:=Small.runtime) (lit " hi ")
    ≠ remove_codes (rt:=Small.runtime) (lit " hi ").
Proof. split; [|split]; vm_compute; congruence. Qed.

End NormalizerExamples.

(** * Further properties *)

(** ** Chunks *)

Section ChunkFacts.
Context {rt : Runtime}.
Import Chunker Spec.

Lemma trace_facts (session : SessionDict) :
  (chunk_session_raised session = None →
   concat (chunk_buffers session) = s_messages session)
  ∧ Forall (λ bc, bc.1 ≠ []
                  ∧ buffer_ok (session_date_of session) bc.1
                  ∧ bc.2 = make_chunk session (session_date_of session)
                             (chunk_index bc.2) bc.1)
      (chunk_session_trace session).
Proof.
  unfold chunk_buffers, chunk_session_trace, chunk_session_raised,
    chunk_session_run.
  destruct (s_messages session) as [|m ms] eqn:E; [by split; [|constructor]|].
  destruct (loop_trace session (session_date_of session) (m :: ms) initial_state)
    as (_ & Hc & _ & Hf).
  pose proof (loop_ok session (session_date_of session) (m :: ms) initial_state
                (initial_state_ok _)) as Hok.
  split; [done|]. rewrite Forall_forall in Hf, Hok. apply Forall_forall.
  intros bc Hin. destruct (Hok bc Hin). by split; [|split; [|apply Hf]].
Qed.

Lemma chunk_counts (session : SessionDict) :
  message_count <$> chunk_session session = length <$> chunk_buffers session.
Proof.
  destruct (trace_facts session) as [_ Hf].
  unfold chunk_session, chunk_buffers. rewrite <-!list_fmap_compose.
  apply Forall_fmap_ext_1. eapply Forall_impl; [exact Hf|].
  intros [buf c] (_ & _ & Hc'). simpl in *. by rewrite Hc', make_chunk_count.
Qed.

(** X1. A session without messages yields no chunk and raises nothing; a
    session with messages whose generator ends without an exception yields
    one chunk at least; and no chunk that is yielded is empty. *)
Theorem chunk_session_nonempty (session : SessionDict) :
  (s_messages session = [] →
   chunk_session session = [] ∧ chunk_session_raised session = None)
  ∧ (chunk_session_raised session = None →
     chunk_session session = [] → s_messages session = [])
  ∧ Forall (λ c, 1 ≤ message_count c) (chunk_session session).
Proof.
  destruct (trace_facts session) as [Hc Hf]. split; [|split].
  - intros Hm. unfold chunk_session, chunk_session_trace,
      chunk_session_raised, chunk_session_run. by rewrite Hm.
  - intros Hr Hnil. specialize (Hc Hr).
    unfold chunk_session, chunk_buffers in *.
    apply fmap_nil_inv in Hnil. by rewrite Hnil in Hc.
  - unfold chunk_session. apply Forall_fmap.
    eapply Forall_impl; [exact Hf|]. intros [buf c] (Hne & _ & Hc'). simpl in *.
    rewrite Hc', make_chunk_count. destruct buf; [done|simpl; lia].
Qed.

(** X2. The buffer a chunk was built from shows in the chunk: the times of its
    first and last message, its nicks as the sorted participants, the
    session's own fields, and the chunk id made of the session id and the
    index. *)
Theorem chunk_describes_buffer (session : SessionDict) (buf : list Message)
    (c : Chunk) :
  (buf, c) ∈ chunk_session_trace session →
  start_time c = Msg.time <$> head buf
  ∧ end_time c = Msg.time <$> last buf
  ∧ is_Some (start_time c) ∧ is_Some (end_time c)
  ∧ year c = dt_year <$> session_date_of session
  ∧ (Sorted str_le (participants c) ∧ NoDup (participants c)
     ∧ ∀ n, n ∈ participants c ↔ ∃ m, m ∈ buf ∧ Msg.nick m = n)
  ∧ (session_id c = s_session_id session
     ∧ source_file c = s_source_file session
     ∧ channel c = s_channel session
     ∧ target_nick c = s_target_nick session
     ∧ network c = s_network session)
  ∧ chunk_id c
    = s_session_id session ++ lit "_chunk" ++ zero_pad 3 (chunk_index c).
Proof.
  intros Hin. destruct (trace_facts session) as [_ Hf].
  rewrite Forall_forall in Hf. destruct (Hf _ Hin) as (Hne & _ & Hc).
  simpl in *. revert Hc. generalize (chunk_index c) at 1. intros i ->.
  rewrite make_chunk_index.
  unfold make_chunk. destruct (get_year_and_decade _) as [y dec] eqn:Ey.
  cbn [start_time end_time participants session_id source_file channel
       target_nick network chunk_id year].
  split; [done|]. split; [done|].
  split; [destruct buf; [done|by eexists]|].
  split.
  { destruct buf as [|m buf] using rev_ind; [done|].
    rewrite last_snoc. by eexists. }
  split.
  { unfold get_year_and_decade in Ey.
    destruct (session_date_of session); by injection Ey as <- _. }
  split; [|done].
  unfold sorted_set.
  destruct (sorted_elements (list_to_set (Msg.nick <$> buf))) as (Hs & Hn & He).
  split; [done|]. split; [done|].
  intros n. etrans; [apply He|]. rewrite elem_of_list_to_set, list_elem_of_fmap.
  split; intros (m & ? & ?); exists m; done.
Qed.

(** *** Chunk ids *)

Lemma digits_value_zeros (k : nat) (s : str) :
  Notions.digits_value (replicate k (chr "0") ++ s) = Notions.digits_value s.
Proof.
  unfold Notions.digits_value. rewrite foldl_app.
  f_equal. induction k as [|k IH]; [done|]. simpl. exact IH.
Qed.

Lemma digits_value_uint (d : Decimal.uint) : ∀ acc,
  foldl (λ acc c, acc * 10 + (N.to_nat c - 48)) acc
    (lit (NilEmpty.string_of_uint d))
  = Nat.of_uint_acc d acc.
Proof.
  induction d as [|d IH|d IH|d IH|d IH|d IH|d IH|d IH|d IH|d IH|d IH];
    intros acc; [done|..];
    simpl; rewrite IH, Nat.tail_mul_spec; f_equal; simpl; lia.
Qed.

(** The decimal rendering of a number writes that number, with or without
    leading zeros. *)
Lemma digits_value_zero_pad (w n : nat) :
  Notions.digits_value (zero_pad w n) = n.
Proof.
  unfold zero_pad. rewrite digits_value_zeros.
  unfold Notions.digits_value, str_of_nat, NilZero.string_of_uint.
  rewrite <-(DecimalNat.Unsigned.of_to n) at 2. unfold Nat.of_uint.
  destruct (Nat.to_uint n) eqn:E; try (rewrite <-digits_value_uint; done).
Qed.

Lemma zero_pad_inj (w n m : nat) : zero_pad w n = zero_pad w m → n = m.
Proof.
  intros H. by rewrite <-(digits_value_zero_pad w n), H, digits_value_zero_pad.
Qed.

(** X3. No two chunks of one session have the same chunk id. *)
Theorem chunk_ids_distinct (session : SessionDict) :
  NoDup (chunk_id <$> chunk_session session).
Proof.
  destruct (trace_facts session) as [_ Hf].
  assert (chunk_index <$> chunk_session session
          = seq 0 (length (chunk_session session))) as Hi.
  { unfold chunk_session, chunk_session_trace, chunk_session_run.
    destruct (s_messages session) as [|m ms]; [done|].
    destruct (loop_trace session (session_date_of session) (m :: ms)
                initial_state) as (_ & _ & Hi & _).
    by rewrite length_fmap, <-list_fmap_compose. }
  assert (chunk_id <$> chunk_session session
          = (λ i, s_session_id session ++ lit "_chunk" ++ zero_pad 3 i)
              <$> (chunk_index <$> chunk_session session)) as ->.
  { unfold chunk_session. rewrite <-!list_fmap_compose.
    apply Forall_fmap_ext_1. eapply Forall_impl; [exact Hf|].
    intros [buf c] (_ & _ & Hc). simpl in *. rewrite Hc at 1.
    rewrite Hc at 1. rewrite make_chunk_index.
    unfold make_chunk. by destruct (get_year_and_decade _). }
  rewrite Hi. apply NoDup_fmap_2; [|apply NoDup_seq].
  intros i j Hij. apply app_inv_head, app_inv_head in Hij.
  by apply zero_pad_inj in Hij.
Qed.

(** *** Where a chunk ends *)

Lemma loop_justified session sd messages : ∀ st,
  state_ok sd st →
  Notions.justified sd (fst <$> yields (loop session sd st messages))
  ∧ match fst <$> yields (loop session sd st messages) with
    | [] => current_chunk st = []
            ∨ raised (loop session sd st messages) ≠ None
    | b :: _ => ∃ tail, b = current_chunk st ++ tail
    end.
Proof.
  induction messages as [|msg rest IH]; intros st Hst.
  { rewrite loop_nil. cbn [yields raised].
    destruct (current_chunk st) as [|m b] eqn:E; [by split; [|left]|].
    split; [done|]. exists []. by rewrite app_nil_r. }
  destruct (loop_body_cases session sd st msg)
    as [(e & Hb & _)|[[Hb _]|(Hb & Hne & Hnew)]].
  - rewrite (loop_cons_raise _ _ _ _ _ _ Hb). cbn [yields raised fmap list_fmap].
    split; [done|]. by right.
  - rewrite (loop_cons_return _ _ _ _ _ _ _ Hb). cbn [yields raised app].
    destruct (loop_body_ok session sd st msg _ _ Hst Hb) as [_ Hst'].
    destruct (IH _ Hst') as [Hj Hh]. cbn [current_chunk] in Hh.
    split; [done|].
    destruct (fst <$> yields (loop session sd _ rest)) as [|b L].
    + destruct Hh as [Hh|Hh]; [by destruct (current_chunk st)|by right].
    + destruct Hh as [tail ->]. exists (msg :: tail). by rewrite <-(assoc_L (++)).
  - rewrite (loop_cons_return _ _ _ _ _ _ _ Hb). cbn [yields raised].
    destruct (loop_body_ok session sd st msg _ _ Hst Hb) as [_ Hst'].
    destruct (IH _ Hst') as [Hj Hh]. cbn [current_chunk] in Hh.
    rewrite fmap_app, fmap_cons. cbn [fst fmap list_fmap app].
    split; [|exists []; by rewrite app_nil_r].
    destruct (fst <$> yields (loop session sd _ rest)) as [|b L]; [done|].
    destruct Hh as [tail ->]. split; [|done].
    destruct (current_chunk st) as [|m0 b0] eqn:Ecc using rev_ind; [done|].
    clear IHb0. exists m0, msg, tail. rewrite last_snoc. split; [done|].
    split; [done|].
    destruct Hst as (Hchars & Hlen & _).
    apply should_start_new_Return in Hnew as (gap & Hgap & Hnew).
    rewrite Ecc, last_snoc in Hgap. symmetry in Hnew.
    apply orb_true_iff in Hnew as [Hnew|Hnew];
      [apply orb_true_iff in Hnew as [Hnew|Hnew]|].
    + left. by rewrite Hgap, Hnew.
    + right; left. apply Nat.leb_le in Hnew. rewrite Ecc in Hlen, Hnew. lia.
    + right; right. apply Z.ltb_lt in Hnew. rewrite Hchars in Hnew.
      rewrite <-Ecc. lia.
Qed.

(** X4. A chunk ends only for a reason: between two chunks that are yielded
    one after the other, the gap test fires between the last message of
    the first and the first message of the second, or the first chunk
    holds 20 messages, or the next message would take its characters
    beyond 8000. *)
Theorem chunk_boundaries_justified (session : SessionDict) :
  Notions.justified (session_date_of session) (chunk_buffers session).
Proof.
  unfold chunk_buffers, chunk_session_trace, chunk_session_run.
  destruct (s_messages session) as [|m ms]; [done|].
  apply loop_justified, initial_state_ok.
Qed.

End ChunkFacts.

(** ** Sessions of short messages *)

Section ShortMessages.
Context {rt : Runtime}.
Import Chunker Spec.

(** Without a session date the generator raises nothing. *)
Lemma loop_no_date session messages : ∀ st,
  raised (loop session None st messages) = None.
Proof.
  induction messages as [|msg rest IH]; intros st; [done|].
  destruct (loop_body_cases session None st msg)
    as [(e & _ & He)|[[Hb _]|(Hb & _)]].
  - unfold should_start_new in He.
    destruct (last (current_chunk st)); [|done].
    by rewrite should_split_no_date in He.
  - rewrite (loop_cons_return _ _ _ _ _ _ _ Hb). apply IH.
  - rewrite (loop_cons_return _ _ _ _ _ _ _ Hb). apply IH.
Qed.

Lemma chunk_session_no_date session :
  session_date_of session = None → chunk_session_raised session = None.
Proof.
  intros Hsd. unfold chunk_session_raised, chunk_session_run. rewrite Hsd.
  destruct (s_messages session); [done|]. apply loop_no_date.
Qed.

Lemma sum_chars_short (b : list Message) :
  Forall (λ m, (msg_chars m ≤ 400)%Z) b →
  (sum_chars b ≤ 400 * Z.of_nat (length b))%Z.
Proof.
  induction 1 as [|m b Hm _ IH]; [done|].
  unfold sum_chars in *. cbn [foldr length]. lia.
Qed.

Lemma length_concat_sum {A} (ls : list (list A)) :
  length (concat ls) = sum_list (length <$> ls).
Proof.
  induction ls as [|l ls IH]; [done|]. simpl. by rewrite length_app, IH.
Qed.

Lemma full_buffers (bufs : list (list Message)) :
  bufs ≠ [] →
  Forall (λ b, b ≠ [] ∧ length b ≤ MAX_MESSAGES_PER_CHUNK
               ∧ Forall (λ m, (msg_chars m ≤ 400)%Z) b) bufs →
  Notions.justified None bufs →
  ∃ k r, length <$> bufs = replicate k MAX_MESSAGES_PER_CHUNK ++ [r]
         ∧ 1 ≤ r ≤ MAX_MESSAGES_PER_CHUNK.
Proof.
  induction bufs as [|b1 [|b2 bufs] IH]; [done|..]; intros _ Hall Hj.
  - exists 0, (length b1). split; [done|].
    apply Forall_inv in Hall as (Hne & Hlen & _).
    destruct b1; [done|]. simpl in *. lia.
  - apply Forall_cons in Hall as [(Hne & Hlen & Hshort) Hall].
    destruct Hj as [(prev & m & rest & _ & -> & Hwhy) Hj].
    destruct (IH ltac:(done) Hall Hj) as (k & r & Hk & Hr).
    exists (S k), r. split; [|done].
    rewrite fmap_cons, Hk. cbn [replicate app]. f_equal.
    destruct Hwhy as [Hs|[Hfull|Hchars]]; [|done|].
    + by rewrite should_split_no_date in Hs.
    + pose proof (sum_chars_short b1 Hshort) as Hb1.
      apply Forall_inv in Hall as (_ & _ & Hm).
      apply Forall_inv in Hm.
      unfold MAX_CHARS_PER_CHUNK, MAX_MESSAGES_PER_CHUNK in *. lia.
Qed.

(** X5. A session without a date whose message lines have 400 characters at
    most is cut every 20 messages: all chunks but the last hold 20
    messages, and the last holds what is left, one message at least. *)
Theorem chunk_session_short_messages (session : SessionDict) :
  session_date_of session = None →
  Forall (λ m, (msg_chars m ≤ 400)%Z) (s_messages session) →
  s_messages session ≠ [] →
  ∃ k r,
    message_count <$> chunk_session session
    = replicate k MAX_MESSAGES_PER_CHUNK ++ [r]
    ∧ 1 ≤ r ≤ MAX_MESSAGES_PER_CHUNK
    ∧ length (s_messages session) = k * MAX_MESSAGES_PER_CHUNK + r.
Proof.
  intros Hsd Hshort Hne.
  destruct (trace_facts session) as [Hc Hf].
  specialize (Hc (chunk_session_no_date session Hsd)).
  assert (Notions.justified None (chunk_buffers session)) as Hj.
  { rewrite <-Hsd. unfold chunk_buffers, chunk_session_trace,
      chunk_session_run.
    destruct (s_messages session) as [|m ms]; [done|].
    apply loop_justified, initial_state_ok. }
  pose proof (chunk_counts session) as Hcount.
  destruct (full_buffers (chunk_buffers session)) as (k & r & Hk & Hr).
  - intros Hnil. by rewrite Hnil in Hc.
  - rewrite <-Hc, Forall_concat, Forall_forall in Hshort.
    apply Forall_forall. intros b Hb. split; [|split; [|by apply Hshort]].
    all: apply list_elem_of_fmap_1 in Hb as ([b' c] & -> & Hin).
    all: rewrite Forall_forall in Hf.
    all: destruct (Hf _ Hin) as (Hne' & (Hlen & _) & _); done.
  - done.
  - exists k, r. rewrite Hcount. split; [done|]. split; [done|].
    rewrite <-Hc, length_concat_sum, Hk, sum_list_with_app, sum_list_replicate.
    simpl. lia.
Qed.

End ShortMessages.

(** ** The gap test by times of day *)

Section GapFacts.
Context {rt : Runtime}.
Import Chunker Spec.
Local Open Scope Z_scope.

(** X6. Under a known session date (of a year before 9999, so that the next
    day exists in Python's calendar), when both times parse, the gap test
    looks at the times of day alone: it compares 30 with the minutes from
    the earlier message's time forward round the clock to the later
    one's. *)
Theorem should_split_minutes (d : datetime) (prev curr : Message)
    (p q : datetime) :
  Calendar.valid d → dt_year d < 9999 →
  parse_time (Msg.time prev) (Some d) = Return (Some p) →
  parse_time (Msg.time curr) (Some d) = Return (Some q) →
  should_split prev curr (Some d)
  = Return
      (TIME_GAP_MINUTES <? (minute_of_day q - minute_of_day p) mod 1440).
Proof.
  intros Hd Hy Hp Hq.
  rewrite (should_split_Return d prev curr p q Hd Hy Hp Hq). f_equal.
  destruct (parse_time_Some _ _ _ Hp) as (d1 & hp & mp & [= <-] & Hrp).
  destruct (parse_time_Some _ _ _ Hq) as (d2 & hq & mq & [= <-] & Hrq).
  rewrite (rollover_gap_minutes d hp mp p hq mq q Hd Hrp Hrq).
  unfold Calendar.timedelta, TIME_GAP_MINUTES.
  pose proof (Z.mod_pos_bound (minute_of_day q - minute_of_day p) 1440
                ltac:(lia)).
  destruct (Z.ltb_spec ((0 * 1440 + 30) * 60000000)
              ((0 * 1440 + (minute_of_day q - minute_of_day p) mod 1440)
               * 60000000)),
    (Z.ltb_spec 30 ((minute_of_day q - minute_of_day p) mod 1440)); lia.
Qed.

End GapFacts.

(** ** The summary of [process_sessions] *)

Section SummaryFacts.
Context {rt : Runtime}.
Import Chunker Spec.








End SummaryFacts.

(** ** The text of a chunk, line by line *)

Section TextFacts.
Import Chunker.

Lemma split_on_no_sep (sep : N) (s : str) : sep ∉ s → split_on sep s = [s].
Proof.
  induction s as [|c s IH]; [done|]. intros Hin.
  apply not_elem_of_cons in Hin as [Hc Hs]. simpl.
  destruct (N.eqb_spec c sep) as [->|_]; [done|]. by rewrite IH.
Qed.

Lemma split_on_app (sep : N) (s t : str) :
  sep ∉ s → split_on sep (s ++ sep :: t) = s :: split_on sep t.
Proof.
  induction s as [|c s IH]; intros Hin.
  { simpl. by rewrite N.eqb_refl. }
  apply not_elem_of_cons in Hin as [Hc Hs]. simpl.
  destruct (N.eqb_spec c sep) as [->|_]; [done|]. by rewrite IH.
Qed.

Lemma split_on_join (sep : N) (parts : list str) :
  parts ≠ [] → Forall (λ p, sep ∉ p) parts →
  split_on sep (join [sep] parts) = parts.
Proof.
  induction parts as [|p [|p' parts] IH]; [done|..]; intros _ Hall.
  - apply Forall_inv in Hall. simpl. by apply split_on_no_sep.
  - apply Forall_cons in Hall as [Hp Hall].
    change (join [sep] (p :: p' :: parts))
      with (p ++ sep :: join [sep] (p' :: parts)).
    rewrite split_on_app by done. by rewrite IH.
Qed.

(** X8. The text of a chunk has one line per message, in order, each made of
    the nick, a colon, a space and the text, as long as no nick and no
    text holds a newline itself. *)
Theorem format_chunk_text_lines (messages : list Message) :
  messages ≠ [] →
  Forall (λ m, (chr "010" ∉ Msg.nick m) ∧ (chr "010" ∉ Msg.text m))
    messages →
  split_on (chr "010") (format_chunk_text messages) = format_line <$> messages.
Proof.
  intros Hne Hall. unfold format_chunk_text. apply split_on_join.
  - by destruct messages.
  - apply Forall_fmap. eapply Forall_impl; [exact Hall|].
    intros m [Hn Ht]. unfold compose, format_line.
    rewrite !not_elem_of_app. split; [done|]. split; [|done].
    cbv. intros H. repeat (apply elem_of_cons in H as [H|H]; [done|]).
    by apply elem_of_nil in H.
Qed.

End TextFacts.

(** ** Time stamps *)

Section TimeStamps.
Context {rt : Runtime}.
Import Chunker.

Lemma two_digits (w n : nat) :
  w ≤ 2 → n < 100 →
  py_int (zero_pad w n) = Some (Z.of_nat n)
  ∧ bool_decide (chr ":" ∉ zero_pad w n) = true.
Proof.
  intros Hw Hn. destruct w as [|[|[|w]]]; [| | |lia].
  all: do 100 (destruct n as [|n]; [by vm_compute|]); lia.
Qed.

(** X9. A time stamp of one or two digits, a colon and two digits is a time
    of the session's day when the hour is 23 at most and the minute 59 at
    most, with the seconds of the session date kept; any other stamp of
    this shape is no time. *)
Theorem parse_time_stamp (d : datetime) (w h m : nat) :
  w ≤ 2 → h < 100 → m < 100 →
  parse_time (zero_pad w h ++ lit ":" ++ zero_pad 2 m) (Some d)
  = Return
      (if (h <=? 23) && (m <=? 59)
       then Some {| dt_year := dt_year d; dt_month := dt_month d;
                    dt_day := dt_day d; dt_hour := Z.of_nat h;
                    dt_minute := Z.of_nat m; dt_second := dt_second d;
                    dt_microsecond := dt_microsecond d |}
       else None).
Proof.
  intros Hw Hh Hm.
  destruct (two_digits w h Hw Hh) as [Hih Hch].
  destruct (two_digits 2 m ltac:(lia) Hm) as [Him Hcm].
  apply bool_decide_eq_true in Hch, Hcm.
  unfold parse_time.
  destruct (zero_pad w h ++ lit ":" ++ zero_pad 2 m) as [|c t] eqn:E.
  { by destruct (zero_pad w h). }
  rewrite <-E. change (lit ":" ++ zero_pad 2 m) with (chr ":" :: zero_pad 2 m).
  rewrite split_on_app, split_on_no_sep by done.
  cbn [fmap list_fmap]. rewrite Hih, Him. unfold Calendar.replace_hm.
  assert (Calendar.fits_int (Z.of_nat h) && Calendar.fits_int (Z.of_nat m)
          = true) as ->.
  { unfold Calendar.fits_int, Calendar.INT_MIN, Calendar.INT_MAX.
    apply andb_true_iff; split; apply andb_true_iff; split;
      apply Z.leb_le; lia. }
  cbn [negb].
  destruct (Nat.leb_spec h 23), (Nat.leb_spec m 59),
    (Z.leb_spec 0 (Z.of_nat h)), (Z.leb_spec (Z.of_nat h) 23),
    (Z.leb_spec 0 (Z.of_nat m)), (Z.leb_spec (Z.of_nat m) 59);
    simpl; try done; lia.
Qed.

End TimeStamps.

(** ** The text normalizer, once more *)

Section CleanText.
Context {rt : Runtime}.
Import Re Parser Spec.

Lemma drop_while_suffix (p : N → bool) (s : str) : drop_while p s `suffix_of` s.
Proof.
  induction s as [|c s IH]; [done|]. simpl.
  destruct (p c); [by apply suffix_cons_r|done].
Qed.

Lemma drop_while_head (p : N → bool) (s : str) (c : N) (t : str) :
  drop_while p s = c :: t → p c = false.
Proof.
  induction s as [|x s IH]; [done|]. simpl.
  destruct (p x) eqn:E; [done|]. by intros [= <- _].
Qed.

Lemma drop_while_keep (p : N → bool) (c : N) (t : str) :
  p c = false → drop_while p (c :: t) = c :: t.
Proof. intros H. simpl. by rewrite H. Qed.

Lemma drop_while_end_prefix (p : N → bool) (s : str) :
  drop_while_end p s `prefix_of` s.
Proof.
  unfold drop_while_end.
  destruct (drop_while_suffix p (reverse s)) as [k Hk].
  exists (reverse k).
  by rewrite <-(reverse_involutive s), Hk, reverse_app at 1.
Qed.

Lemma drop_while_end_idem (p : N → bool) (s : str) :
  drop_while_end p (drop_while_end p s) = drop_while_end p s.
Proof.
  unfold drop_while_end. rewrite reverse_involutive. f_equal.
  destruct (drop_while p (reverse s)) as [|c t] eqn:E; [done|].
  apply drop_while_keep. by eapply drop_while_head.
Qed.

Lemma strip_idem (s : str) : strip (strip s) = strip s.
Proof.
  unfold strip at 1. unfold lstrip.
  assert (drop_while isspace (strip s) = strip s) as ->.
  { unfold strip, lstrip, rstrip.
    destruct (drop_while isspace s) as [|c t] eqn:E; [done|].
    pose proof (drop_while_head _ _ _ _ E) as Hc.
    rewrite drop_while_end_cons by done. by apply drop_while_keep. }
  unfold strip, rstrip. apply drop_while_end_idem.
Qed.

Lemma strip_inside (s : str) : ∃ k1 k2, s = k1 ++ strip s ++ k2.
Proof.
  unfold strip, rstrip, lstrip.
  destruct (drop_while_suffix isspace s) as [k1 Hk1].
  destruct (drop_while_end_prefix isspace (drop_while isspace s)) as [k2 Hk2].
  exists k1, k2. by rewrite <-Hk2.
Qed.

Lemma strip_Forall (P : N → Prop) (s : str) : Forall P s → Forall P (strip s).
Proof.
  destruct (strip_inside s) as (k1 & k2 & Hs). rewrite Hs at 1.
  rewrite !Forall_app. tauto.
Qed.

Lemma strip_length (s : str) : length (strip s) ≤ length s.
Proof.
  destruct (strip_inside s) as (k1 & k2 & Hs). rewrite Hs at 2.
  rewrite !length_app. lia.
Qed.

Lemma color_code_head (c : N) (s : str) :
  color_code (c :: s) = None ↔ c ≠ 3%N.
Proof. simpl. destruct (N.eqb_spec c 3); split; done. Qed.

Lemma scan_no_escape (s : str) : ∀ n,
  Forall (λ c, c ≠ 3%N) (scan color_code n s).
Proof.
  induction s as [|c s IH]; intros n; [constructor|].
  cbn [scan]. destruct n as [|n]; [|apply IH].
  destruct (color_code (c :: s)) as [k|] eqn:E; [apply IH|].
  constructor; [by apply color_code_head in E|apply IH].
Qed.

Lemma scan_clean (s : str) :
  Forall (λ c, c ≠ 3%N) s → scan color_code 0 s = s.
Proof.
  induction 1 as [|c s Hc _ IH]; [done|]. cbn [scan].
  apply color_code_head with (s := s) in Hc. rewrite Hc. by rewrite IH.
Qed.

Lemma scan_length (s : str) : ∀ n, length (scan color_code n s) ≤ length s.
Proof.
  induction s as [|c s IH]; intros n; [done|]. cbn [scan].
  destruct n as [|n]; [|specialize (IH n); simpl; lia].
  destruct (color_code (c :: s)) as [k|].
  - specialize (IH k). simpl. lia.
  - specialize (IH 0). simpl. lia.
Qed.

(** [strip_mirc_codes] by what it deletes. *)
Lemma strip_mirc_codes_filters (s : str) :
  strip_mirc_codes s
  = strip (filter (λ c, c ∉ DECORATION_CHARS)
             (filter (λ c, c ∉ STYLE_TOGGLES) (scan color_code 0 s))).
Proof.
  unfold strip_mirc_codes. by rewrite sub_color, remove_toggles, sub_decorations.
Qed.

Lemma filter_clean {A} (P : A → Prop) `{!∀ x, Decision (P x)} (l : list A) :
  Forall P l → filter P l = l.
Proof.
  induction 1 as [|x l Hx _ IH]; [done|]. by rewrite filter_cons_True, IH.
Qed.

Lemma strip_mirc_codes_no_codes (s : str) :
  Forall (λ c, c ≠ 3%N ∧ (c ∉ STYLE_TOGGLES) ∧ (c ∉ DECORATION_CHARS))
    (strip_mirc_codes s).
Proof.
  rewrite strip_mirc_codes_filters. apply strip_Forall.
  apply Forall_forall. intros c Hc.
  apply list_elem_of_filter in Hc as [Hd Hc].
  apply list_elem_of_filter in Hc as [Ht Hc].
  pose proof (scan_no_escape s 0) as Hs. rewrite Forall_forall in Hs.
  split; [by apply Hs|done].
Qed.

Lemma strip_mirc_codes_strip (s : str) :
  strip (strip_mirc_codes s) = strip_mirc_codes s.
Proof. rewrite strip_mirc_codes_filters. apply strip_idem. Qed.

Lemma strip_mirc_codes_idem (s : str) :
  strip_mirc_codes (strip_mirc_codes s) = strip_mirc_codes s.
Proof.
  pose proof (strip_mirc_codes_no_codes s) as Hclean.
  rewrite (strip_mirc_codes_filters (strip_mirc_codes s)).
  rewrite scan_clean, !filter_clean.
  - apply strip_mirc_codes_strip.
  - eapply Forall_impl; [exact Hclean|]. by intros c (_ & ? & _).
  - rewrite filter_clean; eapply Forall_impl; try exact Hclean.
    + by intros c (_ & _ & ?).
    + by intros c (_ & ? & _).
  - eapply Forall_impl; [exact Hclean|]. by intros c (? & _).
Qed.

(** X10. What [strip_mirc_codes] returns holds no escape character of a color
    code, no style toggle and no decorative glyph, has no white space at
    either end, and is no longer than the input; cleaning it again changes
    nothing. *)
Theorem strip_mirc_codes_clean (s : str) :
  Forall (λ c, c ≠ 3%N ∧ (c ∉ STYLE_TOGGLES) ∧ (c ∉ DECORATION_CHARS))
    (strip_mirc_codes s)
  ∧ strip (strip_mirc_codes s) = strip_mirc_codes s
  ∧ strip_mirc_codes (strip_mirc_codes s) = strip_mirc_codes s
  ∧ length (strip_mirc_codes s) ≤ length s.
Proof.
  split; [apply strip_mirc_codes_no_codes|].
  split; [apply strip_mirc_codes_strip|].
  split; [apply strip_mirc_codes_idem|].
  rewrite strip_mirc_codes_filters.
  etrans; [apply strip_length|].
  etrans; [apply length_filter|]. etrans; [apply length_filter|].
  apply scan_length.
Qed.

(** X11. [is_noise_line] looks at the cleaned line only, and a line that is
    empty once cleaned is noise. *)
Theorem is_noise_line_cleaned (line : str) :
  is_noise_line (strip_mirc_codes line) = is_noise_line line
  ∧ (strip_mirc_codes line = [] → is_noise_line line = true).
Proof.
  split.
  - unfold is_noise_line. by rewrite strip_mirc_codes_idem.
  - intros H. unfold is_noise_line. rewrite H. vm_compute. reflexivity.
Qed.

End CleanText.

(** ** The sessions of a file *)

Section FileSessions.
Context {rt : Runtime}.
Import Re Parser Spec Notions.

Lemma flush_described fi st :
  well_opened fi st →
  Forall (described fi (session_count st)) (flush st)
  ∧ length (flush st) ≤ 1.
Proof.
  unfold well_opened, flush.
  destruct (current_session st) as [s|]; [|by split; [constructor|simpl; lia]].
  destruct (messages s) as [|m ms] eqn:E; [by split; [constructor|simpl; lia]|].
  intros Hd. split; [|simpl; lia]. constructor; [|constructor].
  unfold described in *. cbn [session_id source_file channel network
    target_nick messages]. by rewrite <-E.
Qed.

Lemma add_message_described fi st s m is_self :
  current_session st = Some s →
  well_opened fi st →
  well_opened fi (add_message st s (message_of m is_self))
  ∧ session_count (add_message st s (message_of m is_self)) = session_count st.
Proof.
  intros Hs Hw. unfold add_message.
  destruct (Msg.text (message_of m is_self)) as [|c t] eqn:E; [done|].
  split; [|done]. unfold well_opened in *. rewrite Hs in Hw.
  cbn [current_session session_count].
  destruct Hw as (? & ? & ? & ? & ? & ? & ? & Hm).
  unfold described. cbn [append_message session_id source_file channel network
    target_nick messages].
  repeat (split; [done|]). apply Forall_app. split; [done|].
  constructor; [|constructor]. unfold good_text. rewrite E. split; [done|].
  rewrite <-E. unfold message_of. cbn [Msg.text]. apply strip_idem.
Qed.

(** One line of the file: a Session Start yields what [flush] gives and
    opens the next session; any other line yields nothing and keeps the
    count, and changes nothing while no session is open. *)
Lemma process_line_described fi st line :
  well_opened fi st →
  (is_start_line line = true
   ∧ (process_line fi st line).1 = flush st
   ∧ session_count (process_line fi st line).2 = S (session_count st)
   ∧ well_opened fi (process_line fi st line).2)
  ∨ (is_start_line line = false
     ∧ (process_line fi st line).1 = []
     ∧ session_count (process_line fi st line).2 = session_count st
     ∧ well_opened fi (process_line fi st line).2
     ∧ (current_session st = None → (process_line fi st line).2 = st)).
Proof.
  intros Hw. unfold is_start_line, process_line.
  destruct (match_ false SESSION_START_PATTERN _) as [g|].
  { left. split; [by apply bool_decide_eq_true|]. cbn [fst snd session_count].
    split; [done|]. split; [done|].
    unfold well_opened, described. cbn [current_session session_count
      session_id source_file channel network target_nick messages].
    repeat split; try done; lia. }
  right. split; [apply bool_decide_eq_false; by intros [? ?]|].
  destruct (match_ false SESSION_CLOSE_PATTERN _) as [g|],
    (current_session st) as [s|] eqn:Hs;
    try (cbn [fst snd]; by rewrite ?Hs).
  { cbn [fst snd session_count]. split; [done|]. split; [done|].
    split; [|done]. unfold well_opened in *. rewrite Hs in Hw.
    cbn [current_session session_count]. exact Hw. }
  all: destruct (match_ false SESSION_IDENT_PATTERN _) as [g'|],
         (falsy (fi_channel fi)) eqn:Hf;
       try match goal with
         | |- context [if ?b then _ else _] => destruct b
         end;
       try (cbn [fst snd]; by rewrite ?Hs).
  { cbn [fst snd session_count]. split; [done|]. split; [done|].
    split; [|done]. unfold well_opened in *. rewrite Hs in Hw.
    cbn [current_session session_count].
    destruct Hw as (? & ? & ? & ? & ? & ? & ? & ?).
    unfold described. cbn [with_target_nick session_id source_file channel
      network target_nick messages].
    repeat (split; [done|]). split; [by rewrite Hf|]. split; [by eexists|done]. }
  all: repeat match goal with
         | |- context [match match_ ?a ?b ?c with _ => _ end] =>
             destruct (match_ a b c)
         end;
       cbn [fst snd];
       try (by rewrite ?Hs);
       (split; [done|]);
       match goal with
       | |- context [add_message ?st0 ?s0 (message_of ?m ?b)] =>
           destruct (add_message_described fi st0 s0 m b Hs Hw) as [Hw' Hc']
       end;
       by rewrite Hc'.
Qed.

Lemma start_lines_cons line content :
  start_lines (line :: content)
  = (if is_start_line line then 1 else 0) + start_lines content.
Proof.
  unfold start_lines. rewrite filter_cons.
  destruct (is_start_line line); [by rewrite decide_True|by rewrite decide_False].
Qed.

(** The sessions a run of the loop yields, from any state: each is the
    session of one Session Start, their numbers go up, and each number is
    that of a Session Start seen so far. *)
Lemma parse_lines_described fi content : ∀ st,
  well_opened fi st →
  ∃ ks,
    Forall2 (described fi) ks (parse_lines fi st content)
    ∧ StronglySorted lt ks
    ∧ Forall (λ k, session_count st ≤ k
                   ≤ session_count st + start_lines content) ks
    ∧ (current_session st = None → Forall (λ k, session_count st < k) ks).
Proof.
  induction content as [|line rest IH]; intros st Hw.
  { cbn [parse_lines]. destruct (flush_described fi st Hw) as [Hd Hl].
    destruct (flush st) as [|s [|? ?]] eqn:E; [| |simpl in Hl; lia].
    - exists []. repeat split; constructor.
    - exists [session_count st]. apply Forall_inv in Hd.
      split; [by constructor; [|constructor]|].
      split; [by constructor; [constructor|constructor]|].
      split; [constructor; [lia|constructor]|].
      intros Hn. unfold flush in E. by rewrite Hn in E. }
  cbn [parse_lines].
  destruct (process_line_described fi st line Hw)
    as [(Hstart & Hout & Hc & Hw')|(Hstart & Hout & Hc & Hw' & Hsame)];
    destruct (process_line fi st line) as [out st']; cbn [fst snd] in *;
    destruct (IH st' Hw') as (ks & Hks & Hs & Hb & Hnone);
    rewrite start_lines_cons, Hstart; subst out.
  - destruct (flush_described fi st Hw) as [Hd Hl].
    destruct (flush st) as [|s [|? ?]] eqn:E; [| |simpl in Hl; lia].
    + exists ks. cbn [app]. split; [done|]. split; [done|].
      split; [|intros _]; (eapply Forall_impl; [exact Hb|]);
        intros k ?; simpl in *; lia.
    + exists (session_count st :: ks). apply Forall_inv in Hd. cbn [app].
      split; [by constructor|]. split.
      { constructor; [done|]. eapply Forall_impl; [exact Hb|].
        intros k ?; simpl in *; lia. }
      split.
      { constructor; [lia|]. eapply Forall_impl; [exact Hb|].
        intros k ?; simpl in *; lia. }
      intros Hn. unfold flush in E. by rewrite Hn in E.
  - exists ks. cbn [app]. split; [done|]. split; [done|]. rewrite <-Hc.
    split; [done|]. intros Hn. rewrite (Hsame Hn) in Hnone. rewrite Hc.
    by apply Hnone.
Qed.

Lemma session_id_of_inj fi : Inj (=) (=) (session_id_of fi).
Proof.
  intros i j Hij. unfold session_id_of in Hij.
  apply app_inv_head, app_inv_head in Hij. by apply zero_pad_inj in Hij.
Qed.

Lemma sorted_bounded (ks : list nat) : ∀ lo n,
  StronglySorted lt ks → Forall (λ k, lo < k ≤ lo + n) ks → length ks ≤ n.
Proof.
  induction ks as [|k ks IH]; intros lo n Hs Hb; [simpl; lia|].
  apply StronglySorted_inv in Hs as [Hs Hk].
  apply Forall_cons in Hb as [Hk1 Hb].
  destruct n as [|n]; [lia|].
  specialize (IH k (lo + S n - k) Hs). simpl.
  enough (length ks ≤ lo + S n - k) by lia. apply IH.
  rewrite Forall_forall in Hk, Hb. apply Forall_forall. intros x Hx.
  specialize (Hk x Hx). specialize (Hb x Hx). simpl in *. lia.
Qed.

(** X12. The session ids of a file are the file's stem, an underscore and the
    number of the Session Start, four digits wide: they go up with the
    order of the sessions, no two are the same, and there are no more
    sessions than Session Start lines. *)
Theorem parse_lines_session_ids (fi : file_info) (content : list str) :
  (∃ ks,
     session_id <$> parse_lines fi initial_state content
     = session_id_of fi <$> ks
     ∧ StronglySorted lt ks
     ∧ Forall (λ k, 1 ≤ k ≤ start_lines content) ks)
  ∧ NoDup (session_id <$> parse_lines fi initial_state content)
  ∧ length (parse_lines fi initial_state content) ≤ start_lines content.
Proof.
  destruct (parse_lines_described fi content initial_state)
    as (ks & Hks & Hs & Hb & Hnone); [done|].
  specialize (Hnone eq_refl). cbn [initial_state session_count] in *.
  assert (session_id <$> parse_lines fi initial_state content
          = session_id_of fi <$> ks) as Hids.
  { clear -Hks. induction Hks as [|k s ks ss Hd _ IH]; [done|].
    rewrite !fmap_cons, IH. f_equal. by destruct Hd as [-> _]. }
  assert (Forall (λ k, 0 < k ≤ 0 + start_lines content) ks) as Hb'.
  { rewrite Forall_forall in Hb, Hnone. apply Forall_forall. intros k Hk.
    specialize (Hb k Hk). specialize (Hnone k Hk). simpl in *. lia. }
  split; [|split].
  - exists ks. split; [done|]. split; [done|].
    eapply Forall_impl; [exact Hb'|]. intros k ?; simpl in *; lia.
  - rewrite Hids. apply NoDup_fmap_2; [apply session_id_of_inj|].
    clear -Hs. induction Hs as [|k ks _ IH Hk]; constructor; [|done].
    intros Hin. rewrite Forall_forall in Hk. specialize (Hk k Hin). lia.
  - rewrite <-(Forall2_length _ _ _ Hks). apply (sorted_bounded ks 0); done.
Qed.

(** X13. What comes before the first Session Start of a file is ignored. *)
Theorem lines_before_first_start (fi : file_info) (pre rest : list str) :
  Forall (λ line, is_start_line line = false) pre →
  parse_lines fi initial_state (pre ++ rest)
  = parse_lines fi initial_state rest.
Proof.
  induction 1 as [|line pre Hline _ IH]; [done|].
  cbn [app parse_lines].
  destruct (process_line_described fi initial_state line)
    as [(Hstart & _)|(_ & Hout & _ & _ & Hsame)]; [done|congruence|].
  destruct (process_line fi initial_state line) as [out st']; cbn [fst snd] in *.
  by rewrite Hout, (Hsame eq_refl).
Qed.

(** X14. Every message [parse_log_file] stores has a text that is not empty
    and has no white space at either end. *)
Theorem parse_log_file_message_texts (fs : filesystem) (filepath : str) :
  Forall (λ s, Forall good_text (messages s))
    (sessions (parse_log_file fs filepath)).
Proof.
  unfold parse_log_file.
  destruct (read_content fs filepath ENCODINGS); cbn [sessions];
    [|constructor..].
  destruct (parse_lines_described (file_info_of filepath) lines initial_state)
    as (ks & Hks & _); [done|].
  induction Hks as [|k s ks ss Hd _ IH]; constructor; [|done].
  by destruct Hd as (_ & _ & _ & _ & _ & _ & _ & Hm).
Qed.

End FileSessions.

(** ** File names *)

Section FileNames.
Context {rt : Runtime}.
Import Re Parser Spec Notions.

Lemma split_on_nonempty (sep : N) (s : str) : split_on sep s ≠ [].
Proof.
  destruct s as [|c s]; [done|]. simpl.
  destruct (c =? sep)%N; [done|]. by destruct (split_on sep s).
Qed.

Lemma join_cons (sep : str) (p : str) (ps : list str) :
  ps ≠ [] → join sep (p :: ps) = p ++ sep ++ join sep ps.
Proof. by destruct ps. Qed.

Lemma join_split_on (sep : N) (s : str) : join [sep] (split_on sep s) = s.
Proof.
  induction s as [|c s IH]; [done|]. cbn [split_on].
  pose proof (split_on_nonempty sep s) as Hne.
  destruct (N.eqb_spec c sep) as [->|_].
  - rewrite join_cons by done. by rewrite IH.
  - destruct (split_on sep s) as [|p ps]; [done|].
    rewrite <-IH. by destruct ps.
Qed.

Lemma split_on_first (sep : N) (s p : str) (ps : list str) :
  split_on sep s = p :: ps → sep ∉ p.
Proof.
  revert p ps. induction s as [|c s IH]; intros p ps; cbn [split_on].
  { intros [= <- _]. apply not_elem_of_nil. }
  destruct (N.eqb_spec c sep) as [->|Hc].
  { intros [= <- _]. apply not_elem_of_nil. }
  destruct (split_on sep s) as [|q qs].
  - intros [= <- _]. apply not_elem_of_cons. split; [done|apply not_elem_of_nil].
  - intros [= <- _]. apply not_elem_of_cons. split; [done|]. by eapply IH.
Qed.

(** [rsplit('.', 1)] cuts at the last dot. *)
Lemma rsplit_dot_Some (s name suffix : str) :
  rsplit_dot s = Some (name, suffix) →
  s = name ++ chr "." :: suffix ∧ chr "." ∉ suffix.
Proof.
  unfold rsplit_dot.
  destruct (split_on (chr ".") (reverse s)) as [|after [|b bs]] eqn:E; try done.
  intros [= <- <-]. split.
  - pose proof (join_split_on (chr ".") (reverse s)) as Hj.
    rewrite E, join_cons in Hj by done.
    apply (f_equal reverse) in Hj.
    rewrite reverse_involutive, !reverse_app in Hj.
    rewrite <-Hj. by rewrite <-(assoc_L (++)).
  - rewrite elem_of_reverse. by eapply split_on_first.
Qed.

Lemma extract_channel_info_either (filename : str) :
  (∃ name, name ≠ []
           ∧ (extract_channel_info filename).1.1 = Some name
           ∧ (extract_channel_info filename).1.2 = None)
  ∨ ((extract_channel_info filename).1.1 = None
     ∧ is_Some (extract_channel_info filename).1.2).
Proof.
  unfold extract_channel_info.
  set (base := path_stem filename).
  destruct (startswith (lit "#") base || startswith (lit "@") base) eqn:Hc.
  - left.
    assert (base ≠ []) as Hbase.
    { intros Hb. unfold startswith in Hc. rewrite Hb in Hc. by vm_compute in Hc. }
    destruct (rsplit_dot base) as [[name suffix]|] eqn:E.
    + apply rsplit_dot_Some in E as [Hs Hdot].
      destruct (isdigit suffix); cbn [negb fst snd].
      * by exists base.
      * exists name. split; [|done]. intros ->.
        unfold startswith in Hc. rewrite Hs in Hc. by vm_compute in Hc.
    + by exists base.
  - right. destruct (rsplit_dot base) as [[name suffix]|];
      [destruct (isdigit suffix)|]; cbn [negb fst snd]; by split; [|eexists].
Qed.

(** X15. The file's stem is split at its last dot into a name and a network,
    unless what follows the dot is a number (or there is no dot); the name
    is the channel when the stem opens with # or @, and the nick of a
    private conversation otherwise, never both. *)
Theorem extract_channel_info_parts (filename : str) :
  ∃ name network,
    extract_channel_info filename
    = (if startswith (lit "#") (path_stem filename)
          || startswith (lit "@") (path_stem filename)
       then (Some name, None, network) else (None, Some name, network))
    ∧ path_stem filename
      = name ++ from_option (λ n, chr "." :: n) [] network
    ∧ (∀ n, network = Some n → (chr "." ∉ n) ∧ isdigit n = false)
    ∧ (startswith (lit "#") (path_stem filename)
       || startswith (lit "@") (path_stem filename) = true → name ≠ []).
Proof.
  unfold extract_channel_info.
  set (base := path_stem filename).
  set (is_channel := startswith (lit "#") base || startswith (lit "@") base).
  assert (is_channel = true → base ≠ []) as Hbase.
  { unfold is_channel, startswith. intros H Hb. rewrite Hb in H.
    by vm_compute in H. }
  destruct (rsplit_dot base) as [[name suffix]|] eqn:E.
  - apply rsplit_dot_Some in E as [Hs Hdot].
    destruct (isdigit suffix) eqn:Hd; cbn [negb].
    + exists base, None. split; [by destruct is_channel|].
      split; [by rewrite app_nil_r|]. split; [done|exact Hbase].
    + exists name, (Some suffix). split; [by destruct is_channel|].
      split; [done|]. split; [by intros n [= <-]|].
      intros Hc ->. unfold is_channel, startswith in Hc. rewrite Hs in Hc.
      by vm_compute in Hc.
  - exists base, None. split; [by destruct is_channel|].
    split; [by rewrite app_nil_r|]. split; [done|exact Hbase].
Qed.

(** X16. Every session of a file carries the file's path, channel and network,
    and has a channel or a target nick, never both. *)
Theorem parse_log_file_metadata (fs : filesystem) (filepath : str) :
  Forall (λ s, source_file s = filepath
               ∧ channel s = (extract_channel_info filepath).1.1
               ∧ network s = (extract_channel_info filepath).2
               ∧ ((is_Some (channel s) ∧ target_nick s = None)
                  ∨ (channel s = None ∧ is_Some (target_nick s))))
    (sessions (parse_log_file fs filepath)).
Proof.
  unfold parse_log_file.
  destruct (read_content fs filepath ENCODINGS); cbn [sessions];
    [|constructor..].
  destruct (parse_lines_described (file_info_of filepath) lines initial_state)
    as (ks & Hks & _); [done|].
  induction Hks as [|k s ks ss Hd _ IH]; constructor; [|done].
  destruct Hd as (_ & _ & Hsrc & Hch & Hnet & Hkeep & Hsome & _).
  unfold file_info_of in *. cbn [fi_filepath fi_channel fi_target_nick
    fi_network] in *.
  split; [done|]. split; [done|]. split; [done|]. rewrite Hch.
  clear IH Hnet.
  destruct (extract_channel_info_either filepath)
    as [(name & Hname & Hc & Ht)|[Hc Ht]]; rewrite Hc, ?Ht in *.
  - left. split; [by eexists|]. apply Hkeep. by destruct name.
  - right. split; [done|]. by apply Hsome.
Qed.

End FileNames.

(** ** [parse_directory] *)

Section DirectoryFacts.
Context {rt : Runtime}.
Import Parser Spec Driver.




End DirectoryFacts.

(** ** Examples *)

Section FurtherExamples.
Import Chunker Parser Spec Notions Examples MoreExamples.

(** The chunk of the overnight session runs from 23:55 to 00:10. *)
Lemma chunk_describes_buffer_overnight :
  (overnight_buffer,
   make_chunk overnight (Some dec_9_2003) 0 overnight_buffer)
    ∈ chunk_session_trace (rt:=Small.runtime) overnight
  ∧ Chunker.start_time
      (make_chunk overnight (Some dec_9_2003) 0 overnight_buffer)
    = Some (lit "23:55")
  ∧ Chunker.end_time
      (make_chunk overnight (Some dec_9_2003) 0 overnight_buffer)
    = Some (lit "00:10").
Proof.
  assert ((overnight_buffer,
           make_chunk overnight (Some dec_9_2003) 0 overnight_buffer)
            ∈ chunk_session_trace (rt:=Small.runtime) overnight) as Hin
    by (vm_compute; constructor).
  split; [exact Hin|].
  destruct (chunk_describes_buffer (rt:=Small.runtime) _ _ _ Hin)
    as (Hs & He & _).
  split; [exact Hs|exact He].
Defined.

(** Three short messages make one chunk. *)
Lemma chunk_session_short_messages_three :
  session_date_of (rt:=Small.runtime) three_short = None
  ∧ ∃ k r,
      message_count <$> chunk_session (rt:=Small.runtime) three_short
      = replicate k MAX_MESSAGES_PER_CHUNK ++ [r]
      ∧ 1 ≤ r ≤ MAX_MESSAGES_PER_CHUNK
      ∧ 3 = k * MAX_MESSAGES_PER_CHUNK + r.
Proof.
  split; [reflexivity|].
  apply (chunk_session_short_messages (rt:=Small.runtime) three_short).
  - reflexivity.
  - repeat constructor; vm_compute; congruence.
  - discriminate.
Defined.

(** From 18:30 to 19:05 it is 35 minutes: a split. *)
Lemma should_split_minutes_35 :
  Calendar.valid dec_9_2003 ∧ (dt_year dec_9_2003 < 9999)%Z
  ∧ should_split (rt:=Small.runtime) (short "18:30") (short "19:05")
      (Some dec_9_2003)
    = Return (TIME_GAP_MINUTES <? (19 * 60 + 5 - (18 * 60 + 30)) mod 1440)%Z.
Proof.
  split; [exact dec_9_2003_valid|]. split; [reflexivity|].
  exact (should_split_minutes (rt:=Small.runtime) dec_9_2003
           (short "18:30") (short "19:05") _ _ dec_9_2003_valid
           eq_refl eq_refl eq_refl).
Defined.

(** The text of the overnight buffer has two lines. *)
Lemma format_chunk_text_lines_overnight :
  split_on (chr "010") (format_chunk_text overnight_buffer)
  = [lit "a: hi"; lit "a: hi"].
Proof.
  apply (format_chunk_text_lines overnight_buffer).
  - discriminate.
  - repeat constructor; vm_compute; intros H;
      repeat (apply elem_of_cons in H as [H|H]; [discriminate H|]);
      by apply elem_of_nil in H.
Defined.

(** "18:30" in a session of 2003-12-09 that started at 18:27:34. *)
Lemma parse_time_stamp_1830 :
  parse_time (rt:=Small.runtime) (lit "18:30") (Some dec_9_2003)
  = Return
      (Some {| dt_year := 2003; dt_month := 12; dt_day := 9; dt_hour := 18;
               dt_minute := 30; dt_second := 34; dt_microsecond := 0 |}).
Proof.
  apply (parse_time_stamp (rt:=Small.runtime) dec_9_2003 2 18 30); lia.
Defined.

(** A message line before the four lines changes nothing. *)
Lemma lines_before_first_start_stray :
  is_start_line (rt:=Small.runtime) stray_line = false
  ∧ parse_lines (rt:=Small.runtime) dm_file Parser.initial_state
      ([stray_line] ++ readlines (four_lines true))
    = parse_lines (rt:=Small.runtime) dm_file Parser.initial_state
        (readlines (four_lines true)).
Proof.
  split; [reflexivity|].
  apply (lines_before_first_start (rt:=Small.runtime) dm_file [stray_line]).
  repeat constructor.
Defined.

End FurtherExamples.
